(** * IconForge: rounded-corner masking, the file list and the batch conversion

    A shallow embedding of [IconForge.py].  The program is a PyQt6 window over
    Pillow; the parts embedded here are the ones that carry logic:

    - [apply_rounded_corners_pil], the rounded-corner mask (both as a pure
      function on pixel grids and, statement by statement, over a store of
      Pillow image objects, where [copy] allocates and [putalpha] mutates);
    - [add_files_to_list], the validation of the paths put in the list widget;
    - [run_conversion], the batch loop, with its guards, its [try]/[except]
      and its two ways of grouping the output.

    Pillow, [os.path] and the Qt dialogs are outside the program: what they
    return is an input of the model (see [Env]). *)

From stdpp Require Import base decidable option list gmap strings pretty.

Local Open Scope Z_scope.

(** ** Constants *)

Definition MAX_FILE_SIZE_MB : Z := 4.
Definition MAX_FILE_SIZE_BYTES : Z := MAX_FILE_SIZE_MB * 1024 * 1024.
Definition ICON_SIZES : list Z := [16; 32; 48; 64; 128; 256].

(** ** Images *)

(** One RGBA pixel, 8 bits a channel. *)
Record Pixel := mkPixel { red : Z; green : Z; blue : Z; alpha : Z }.

(** A Pillow image of mode ["RGBA"]: its [size] and its pixel rows. *)
Record RasterImage := mkRaster {
  width : Z;
  height : Z;
  rows : list (list Pixel)
}.

(** A Pillow image of mode ["L"] (one 8-bit channel), as the mask is. *)
Record GreyImage := mkGrey {
  gwidth : Z;
  gheight : Z;
  grows : list (list Z)
}.

(** The invariant of a decoded image: [height] rows of [width] pixels. *)
Definition well_formed (image : RasterImage) : Prop :=
  length (rows image) = Z.to_nat (height image) ∧
  Forall (λ row, length row = Z.to_nat (width image)) (rows image).

Definition grey_well_formed (m : GreyImage) : Prop :=
  length (grows m) = Z.to_nat (gheight m) ∧
  Forall (λ row, length row = Z.to_nat (gwidth m)) (grows m).

Definition size (image : RasterImage) : Z * Z := (width image, height image).

Definition rgb (p : Pixel) : Z * Z * Z := (red p, green p, blue p).

Definition set_alpha (p : Pixel) (a : Z) : Pixel :=
  {| red := red p; green := green p; blue := blue p; alpha := a |}.

(** The bands of an image, row by row. *)
Definition alpha_channel (image : RasterImage) : list (list Z) :=
  fmap (M := list) alpha <$> rows image.

Definition color_channels (image : RasterImage) : list (list (Z * Z * Z)) :=
  fmap (M := list) rgb <$> rows image.

(** [Image.new('L', size, color)]. *)
Definition Image_new_L (sz : Z * Z) (color : Z) : GreyImage :=
  {| gwidth := sz.1; gheight := sz.2;
     grows := replicate (Z.to_nat sz.2) (replicate (Z.to_nat sz.1) color) |}.

(** [image.copy()] on values: the same size and the same pixels. *)
Definition copy (image : RasterImage) : RasterImage :=
  {| width := width image; height := height image; rows := rows image |}.

(** [output.putalpha(mask)]: the alpha band becomes the mask, pixel for
    pixel; the colour bands stay. *)
Definition putalpha (image : RasterImage) (mask : GreyImage) : RasterImage :=
  {| width := width image; height := height image;
     rows := zip_with (zip_with set_alpha) (rows image) (grows mask) |}.

(** ** The rounded rectangle *)

(** A pixel [(x, y)] is the unit square with centre [(x + 1/2, y + 1/2)];
    the test below is "the centre is within [r] of [(cx, cy)]", with
    everything doubled to stay in the integers. *)
Definition in_disc (r cx cy x y : Z) : bool :=
  (2 * x + 1 - 2 * cx) ^ 2 + (2 * y + 1 - 2 * cy) ^ 2 <=? (2 * r) ^ 2.

(** Modelled from the spec: Pillow's [ImageDraw.rounded_rectangle] is a
    library routine and not part of the program.  The spec describes the
    mask it leaves: every pixel of the rectangle is opaque except in the
    four corner regions of radius [r], where a pixel is opaque only inside
    the quarter-circle of radius [r] centred at the corner's inset point. *)
Definition inside_rounded_rectangle (xy : Z * Z * Z * Z) (r x y : Z) : bool :=
  let '(x0, y0, x1, y1) := xy in
  let left := x <? x0 + r in
  let right := x1 - r <=? x in
  let top := y <? y0 + r in
  let bottom := y1 - r <=? y in
  (x0 <=? x) && (x <? x1) && (y0 <=? y) && (y <? y1) &&
  (if (left || right) && (top || bottom)
   then in_disc r (if left then x0 + r else x1 - r)
                  (if top then y0 + r else y1 - r) x y
   else true).

(** Drawing paints [fill] on the pixels a shape covers and leaves the
    others as they were. *)
Definition draw_shape (covers : Z → Z → bool) (fill : Z) (m : GreyImage) : GreyImage :=
  {| gwidth := gwidth m; gheight := gheight m;
     grows := imap (λ y row,
                imap (λ x v, if covers (Z.of_nat x) (Z.of_nat y) then fill else v) row)
              (grows m) |}.

(** [draw.rounded_rectangle(xy, radius=radius, fill=fill)]. *)
Definition rounded_rectangle (m : GreyImage) (xy : Z * Z * Z * Z) (radius fill : Z) : GreyImage :=
  draw_shape (inside_rounded_rectangle xy radius) fill m.

(** The ellipse inscribed in a [w] by [h] image: centre [(w/2, h/2)],
    semi-axes [w/2] and [h/2]; a pixel is covered when its centre is. *)
Definition inside_inscribed_ellipse (w h x y : Z) : bool :=
  (2 * x + 1 - w) ^ 2 * h ^ 2 + (2 * y + 1 - h) ^ 2 * w ^ 2 <=? w ^ 2 * h ^ 2.

Definition inscribed_ellipse_mask (w h : Z) : GreyImage :=
  draw_shape (inside_inscribed_ellipse w h) 255 (Image_new_L (w, h) 0).

(** ** [apply_rounded_corners_pil] *)

(** Python's [min(a, b, ...)]: the first smallest argument. *)
Definition py_min (a : Z) (rest : list Z) : Z :=
  fold_left (λ m x, if x <? m then x else m) rest a.

(** [safe_radius = min(radius, image.width // 2, image.height // 2)];
    [//] is floor division, as [Z.div] is. *)
Definition safe_radius (image : RasterImage) (radius : Z) : Z :=
  py_min radius [width image / 2; height image / 2].

(** The mask as it is when [putalpha] receives it: a black ["L"] image of
    the image's size with the rounded rectangle drawn in white. *)
Definition rounded_mask (image : RasterImage) (radius : Z) : GreyImage :=
  rounded_rectangle (Image_new_L (size image) 0)
                    (0, 0, width image, height image)
                    (safe_radius image radius) 255.

(** The function on values. *)
Definition rounded_corners (image : RasterImage) (radius : Z) : RasterImage :=
  let mask := rounded_mask image radius in
  let output := copy image in
  putalpha output mask.

(** *** The same function over the store of Pillow objects *)

(** Pillow images are mutable objects; [copy] makes a new one and
    [putalpha] and the drawing change one in place. *)
Inductive PilImage :=
| RGBA (image : RasterImage)
| L (mask : GreyImage).

Abbreviation loc := positive.
Abbreviation store := (gmap positive PilImage).

(** A computation over the store; [None] is a raised exception. *)
Definition PIL (A : Type) : Type := store → option (A * store).

Definition pil_ret {A} (a : A) : PIL A := λ σ, Some (a, σ).
Definition pil_bind {A B} (m : PIL A) (k : A → PIL B) : PIL B :=
  λ σ, match m σ with
       | Some (a, σ') => k a σ'
       | None => None
       end.

Notation "x <- m ;; k" := (pil_bind m (λ x, k))
  (at level 100, m at next level, right associativity).
Notation "m ;;; k" := (pil_bind m (λ _, k))
  (at level 100, right associativity).

Definition alloc (o : PilImage) : PIL loc :=
  λ σ, let l := fresh (dom σ) in Some (l, <[l := o]> σ).

Definition Image_size (image : loc) : PIL (Z * Z) :=
  λ σ, match σ !! image with
       | Some (RGBA im) => Some (size im, σ)
       | Some (L m) => Some ((gwidth m, gheight m), σ)
       | None => None
       end.

Definition Image_new (sz : Z * Z) (color : Z) : PIL loc :=
  alloc (L (Image_new_L sz color)).

Definition Draw_rounded_rectangle (mask : loc) (xy : Z * Z * Z * Z) (radius fill : Z) : PIL unit :=
  λ σ, match σ !! mask with
       | Some (L m) => Some (tt, <[mask := L (rounded_rectangle m xy radius fill)]> σ)
       | _ => None
       end.

Definition Image_copy (image : loc) : PIL loc :=
  λ σ, match σ !! image with
       | Some o => alloc o σ
       | None => None
       end.

Definition Image_putalpha (image mask : loc) : PIL unit :=
  λ σ, match σ !! image, σ !! mask with
       | Some (RGBA im), Some (L m) => Some (tt, <[image := RGBA (putalpha im m)]> σ)
       | _, _ => None
       end.

Definition apply_rounded_corners_pil (image : loc) (radius : Z) : PIL loc :=
  sz <- Image_size image ;;
  mask <- Image_new sz 0 ;;
  let safe_radius := py_min radius [sz.1 / 2; sz.2 / 2] in
  Draw_rounded_rectangle mask (0, 0, sz.1, sz.2) safe_radius 255 ;;;
  output <- Image_copy image ;;
  Image_putalpha output mask ;;;
  pil_ret output.

(** The guard both callers put in front of the call
    ([if radius > 0: img = self.apply_rounded_corners_pil(img, radius)]). *)
Definition round_if_positive (image : RasterImage) (radius : Z) : RasterImage :=
  if 0 <? radius then rounded_corners image radius else image.

(** ** The world outside the program *)

Inductive BitmapFormat := bmp | png.

(** What the operating system and Pillow answer.  An exception is
    represented by its text. *)
Record Env := {
  (** [os.path.getsize(path)]; [None] when it raises [OSError]. *)
  os_path_getsize : string → option Z;
  os_path_basename : string → string;
  os_path_splitext : string → string * string;
  os_path_join : string → string → string;
  (** [Image.open(path)] followed by [img.convert("RGBA")]: the decoded
      image, or the exception either of them raises. *)
  Image_open : string → string + RasterImage;
  (** [img.save(output_path, format='ICO', sizes=..., bitmap_format=...)]:
      [Some e] when it raises [e], [None] when the file is written. *)
  Image_save : string → RasterImage → list (Z * Z) → BitmapFormat → option string
}.

(** The widgets [run_conversion] reads.  [size_checkboxes] is a dict with
    one check box for each of [ICON_SIZES], in that order; it is given by
    the state of the box of each size. *)
Record Widgets := {
  file_list : list string;
  radius_slider : Z;
  size_checkboxes : Z → bool;
  bit_32 : bool;
  save_separately_checkbox : bool
}.

(** What the program does to the world, in the order it does it. *)
Inductive Event :=
| ShowMessage (title message icon_type : string)
| SetStatus (text : string)
| ProcessEvents
| SetMaximum (n : Z)
| SetValue (n : Z)
| Save (output_path : string) (image : RasterImage) (sizes : list (Z * Z))
       (bitmap_format : BitmapFormat)
| Print (text : string)
| SingleShot (msec : Z).

(** ** [add_files_to_list] *)

(** The loop of [add_files_to_list] over the texts of the list widget.
    The result is the list as the call leaves it and whether
    [os.path.getsize] raised (the loop then stops where it is).  The
    console line for an oversized file and the selection of the first row
    after the loop do not touch the texts and are left out. *)
Fixpoint add_files_to_list (env : Env) (items : list string) (file_paths : list string)
  : list string * bool :=
  match file_paths with
  | [] => (items, false)
  | path :: rest =>
    match os_path_getsize env path with
    | None => (items, true)
    | Some n =>
      if MAX_FILE_SIZE_BYTES <? n then add_files_to_list env items rest
      else if bool_decide (path ∉ items)
           then add_files_to_list env (items ++ [path]) rest
           else add_files_to_list env items rest
    end
  end.

(** The list after a series of calls (drops and "Add Images..."), from the
    list the window starts with. *)
Definition file_list_after (env : Env) (calls : list (list string)) : list string :=
  fold_left (λ items file_paths, (add_files_to_list env items file_paths).1) calls [].

(** ** [run_conversion] *)

(** Python's [l.remove(x)]: the first [x] goes.  (It raises when there is
    none; the caller checks [x in l] first.) *)
Fixpoint list_remove (x : Z) (l : list Z) : list Z :=
  match l with
  | [] => []
  | y :: l' => if decide (y = x) then l' else y :: list_remove x l'
  end.

Definition newline : string := String (Ascii.ascii_of_nat 10) EmptyString.

(** A stretch of the program that may raise: the events so far, and the
    exception or the value. *)
Definition Try (A : Type) : Type := list Event * (string + A).

Definition try_ret {A} (a : A) : Try A := ([], inr a).
Definition try_raise {A} (e : string) : Try A := ([], inl e).
Definition try_emit (ev : Event) : Try unit := ([ev], inr tt).
Definition try_bind {A B} (m : Try A) (k : A → Try B) : Try B :=
  match m with
  | (evs, inl e) => (evs, inl e)
  | (evs, inr a) => let '(evs', r) := k a in (evs ++ evs', r)
  end.

Notation "m ~;; k" := (try_bind m (λ _, k))
  (at level 100, right associativity).

Definition save (env : Env) (image : RasterImage) (output_path : string)
    (sizes : list (Z * Z)) (bitmap_format : BitmapFormat) : Try unit :=
  match Image_save env output_path image sizes bitmap_format with
  | Some e => try_raise e
  | None => try_emit (Save output_path image sizes bitmap_format)
  end.

(** What the [except] branch does for [path] and the exception [e]. *)
Definition error_events (env : Env) (path e : string) : list Event :=
  [SetStatus "Error!";
   Print ("Error converting " +:+ path +:+ ": " +:+ e);
   ShowMessage "Conversion Error"
     ("Could not convert " +:+ os_path_basename env path +:+ "." +:+
      newline +:+ newline +:+ e)
     "critical";
   SingleShot 4000].

Definition no_sizes_box : Event :=
  ShowMessage "No Sizes Selected" "Please select at least one icon size." "warning".

Definition no_files_box : Event :=
  ShowMessage "No Files" "Please add at least one image." "information".

Section conversion.
Context (env : Env) (output_dir : string) (radius : Z)
        (selected_sizes : list Z) (use_32bit save_separately : bool).

Definition bitmap_format : BitmapFormat := if negb use_32bit then bmp else png.

(** [for size in selected_sizes: ...] of the separate-files branch. *)
Fixpoint save_each_size (img_rgba : RasterImage) (base_name : string)
    (sizes : list Z) (conversion_count : Z) : Try Z :=
  match sizes with
  | [] => try_ret conversion_count
  | size :: rest =>
    let output_path :=
      os_path_join env output_dir (base_name +:+ "_" +:+ pretty size +:+ ".ico") in
    let sizes_for_pil := [(size, size)] in
    save env img_rgba output_path sizes_for_pil bitmap_format ~;;
    let conversion_count := conversion_count + 1 in
    try_emit (SetValue conversion_count) ~;;
    save_each_size img_rgba base_name rest conversion_count
  end.

(** The body of the [try] for one path. *)
Definition convert_file (path base_name : string) (conversion_count : Z) : Try Z :=
  match Image_open env path with
  | inl e => try_raise e
  | inr img =>
    let img_rgba := round_if_positive img radius in
    if save_separately then
      save_each_size img_rgba base_name selected_sizes conversion_count
    else
      let output_path := os_path_join env output_dir (base_name +:+ ".ico") in
      let sizes_for_pil := (λ s, (s, s)) <$> selected_sizes in
      save env img_rgba output_path sizes_for_pil bitmap_format ~;;
      let conversion_count := conversion_count + 1 in
      try_emit (SetValue conversion_count) ~;;
      try_ret conversion_count
  end.

(** [for i in range(self.file_list.count()): ...], with the [except]
    branch that returns and the two lines after the loop. *)
Fixpoint convert_files (paths : list string) (conversion_count : Z) : list Event :=
  match paths with
  | [] =>
    [SetStatus ("Success! " +:+ pretty conversion_count +:+ " file(s) created.");
     SingleShot 4000]
  | path :: rest =>
    let base_name := (os_path_splitext env (os_path_basename env path)).1 in
    match convert_file path base_name conversion_count with
    | (evs, inr conversion_count) => evs ++ convert_files rest conversion_count
    | (evs, inl e) => evs ++ error_events env path e
    end
  end.
End conversion.

(** [[size for size, checkbox in self.size_checkboxes.items() if checkbox.isChecked()]] *)
Definition checked_sizes (w : Widgets) : list Z :=
  filter (λ size, size_checkboxes w size = true) ICON_SIZES.

(** [selected_sizes] as it is after the 8-bit guard. *)
Definition selected_sizes_of (w : Widgets) : list Z :=
  let selected_sizes := checked_sizes w in
  if bool_decide (256 ∈ selected_sizes) && negb (bit_32 w)
  then list_remove 256 selected_sizes
  else selected_sizes.

Definition warning_256 : Event :=
  ShowMessage "Warning"
    "The 256x256 size is only compatible with 32-bit mode. It will be ignored."
    "warning".

(** [output_dir] is what [QFileDialog.getExistingDirectory] returned: the
    empty string when the user cancels. *)
Definition run_conversion (env : Env) (w : Widgets) (output_dir : string) : list Event :=
  if bool_decide (length (file_list w) = 0%nat) then
    [no_files_box]
  else if bool_decide (output_dir = "") then []
  else
    let radius := radius_slider w in
    let selected_sizes := checked_sizes w in
    let use_32bit := bit_32 w in
    let save_separately := save_separately_checkbox w in
    let '(warned, selected_sizes) :=
      if bool_decide (256 ∈ selected_sizes) && negb use_32bit
      then ([warning_256], list_remove 256 selected_sizes)
      else ([], selected_sizes) in
    warned ++
    if bool_decide (selected_sizes = []) then [no_sizes_box]
    else
      [SetStatus "Converting..."; ProcessEvents;
       SetMaximum (if save_separately
                   then Z.of_nat (length (file_list w)) * Z.of_nat (length selected_sizes)
                   else Z.of_nat (length (file_list w)));
       SetValue 0] ++
      convert_files env output_dir radius selected_sizes use_32bit save_separately
                    (file_list w) 0.

(** The [.ico] files a run writes. *)
Record IcoFile := {
  ico_path : string;
  ico_image : RasterImage;
  ico_sizes : list (Z * Z);
  ico_format : BitmapFormat
}.

Definition saved_files (evs : list Event) : list IcoFile :=
  omap (λ ev, match ev with
              | Save p im szs f =>
                Some {| ico_path := p; ico_image := im; ico_sizes := szs; ico_format := f |}
              | _ => None
              end) evs.

Definition message_boxes (evs : list Event) : list (string * string * string) :=
  omap (λ ev, match ev with
              | ShowMessage t m i => Some (t, m, i)
              | _ => None
              end) evs.

(** The outputs a batch is meant to leave when every file converts, in the
    words of the description: in combined mode one file [<name>.ico] for a
    source, with one entry for each selected size; in separate mode one
    file [<name>_<size>.ico] for each selected size, with that one entry. *)
Definition expected_outputs (env : Env) (output_dir : string) (radius : Z)
    (selected_sizes : list Z) (use_32bit save_separately : bool)
    (paths : list string) : list IcoFile :=
  paths ≫= λ path,
    match Image_open env path with
    | inl _ => []
    | inr img =>
      let name := (os_path_splitext env (os_path_basename env path)).1 in
      let image := round_if_positive img radius in
      let format := if use_32bit then png else bmp in
      if save_separately then
        (λ size,
          {| ico_path := os_path_join env output_dir
                           (name +:+ "_" +:+ pretty size +:+ ".ico");
             ico_image := image;
             ico_sizes := [(size, size)];
             ico_format := format |}) <$> selected_sizes
      else
        [ {| ico_path := os_path_join env output_dir (name +:+ ".ico");
             ico_image := image;
             ico_sizes := (λ s, (s, s)) <$> selected_sizes;
             ico_format := format |} ]
    end.

(** A file written in the format of the bit depth whose entries are all
    squares of the given sizes. *)
Definition written_as (use_32bit : bool) (sizes : list Z) (f : IcoFile) : Prop :=
  ico_format f = bitmap_format use_32bit ∧
  ∀ entry, entry ∈ ico_sizes f → ∃ s, s ∈ sizes ∧ entry = (s, s).

(** The warning of the 8-bit guard, when it is shown. *)
Definition warning_events (w : Widgets) : list Event :=
  if bool_decide (256 ∈ checked_sizes w) && negb (bit_32 w) then [warning_256] else [].

(** The window with the box of one size cleared. *)
Definition uncheck (size : Z) (w : Widgets) : Widgets :=
  {| file_list := file_list w;
     radius_slider := radius_slider w;
     size_checkboxes := λ s, if decide (s = size) then false else size_checkboxes w s;
     bit_32 := bit_32 w;
     save_separately_checkbox := save_separately_checkbox w |}.

(** The window with the radius slider moved to [radius]. *)
Definition set_radius (radius : Z) (w : Widgets) : Widgets :=
  {| file_list := file_list w;
     radius_slider := radius;
     size_checkboxes := size_checkboxes w;
     bit_32 := bit_32 w;
     save_separately_checkbox := save_separately_checkbox w |}.

(** A path is admissible when its file exists and is at most 4 MiB. *)
Definition small_enough (env : Env) (path : string) : Prop :=
  ∃ n, os_path_getsize env path = Some n ∧ n ≤ MAX_FILE_SIZE_BYTES.

(** ** [update_preview] *)

(** What [update_preview] does to the preview pane. *)
Inductive PreviewEvent :=
| PreviewClear
| PreviewSetText (text : string)
| RadiusValueSetText (text : string)
| PreviewSetPixmap (image : RasterImage) (w h : Z)
| PreviewPrint (text : string).

(** [update_preview], for the current item of the list (its text, or
    [None] when there is none) and the value of the radius slider.  The
    result is what happens to the pane and the new [current_image_path].
    [image_qt] stands for [ImageQt.ImageQt] and [QPixmap.fromImage], which
    the [try] also covers: [Some e] when they raise.  [PreviewSetPixmap]
    records the image and the box it is scaled into, keeping its aspect
    ratio. *)
Definition update_preview (env : Env) (image_qt : RasterImage → option string)
    (current_item : option string) (radius : Z)
  : list PreviewEvent * option string :=
  match current_item with
  | None => ([PreviewClear; PreviewSetText "No image selected"], None)
  | Some text =>
    let current_image_path := text in
    (RadiusValueSetText (pretty radius) ::
     match Image_open env current_image_path with
     | inl e => [PreviewPrint ("Preview Error: " +:+ e); PreviewSetText "Format Error"]
     | inr pil_img =>
       let pil_img := round_if_positive pil_img radius in
       match image_qt pil_img with
       | Some e => [PreviewPrint ("Preview Error: " +:+ e); PreviewSetText "Format Error"]
       | None => [PreviewSetPixmap pil_img 256 256]
       end
     end,
     Some current_image_path)
  end.

(** ** Reading a run *)

(** The maximum [run_conversion] gives the progress bar. *)
Definition progress_maximum (w : Widgets) : Z :=
  if save_separately_checkbox w
  then Z.of_nat (length (file_list w)) * Z.of_nat (length (selected_sizes_of w))
  else Z.of_nat (length (file_list w)).

(** An event of the loop: it leaves the maximum of the progress bar alone
    and sets its value between [lo] and [hi] only. *)
Definition progress_between (lo hi : Z) (ev : Event) : Prop :=
  match ev with
  | SetValue n => lo ≤ n ≤ hi
  | SetMaximum _ => False
  | _ => True
  end.

(** A trace in which every value given to the progress bar lies between 0
    and the maximum the bar has at that moment ([maximum] at the start). *)
Fixpoint progress_in_range (maximum : Z) (evs : list Event) : Prop :=
  match evs with
  | [] => True
  | SetMaximum m :: evs => progress_in_range m evs
  | SetValue n :: evs => 0 ≤ n ≤ maximum ∧ progress_in_range maximum evs
  | _ :: evs => progress_in_range maximum evs
  end.

(** The two lines after the loop, for a count. *)
Definition success_events (conversion_count : Z) : list Event :=
  [SetStatus ("Success! " +:+ pretty conversion_count +:+ " file(s) created.");
   SingleShot 4000].

(** The box of the [except] branch for [path] and [e]. *)
Definition error_box (env : Env) (path e : string) : string * string * string :=
  ("Conversion Error",
   "Could not convert " +:+ os_path_basename env path +:+ "." +:+
   newline +:+ newline +:+ e,
   "critical").

(** The output a source has for a size in separate mode, and the one it
    has in combined mode. *)
Definition separate_path (env : Env) (output_dir path : string) (size : Z) : string :=
  os_path_join env output_dir
    ((os_path_splitext env (os_path_basename env path)).1 +:+ "_" +:+
     pretty size +:+ ".ico").

Definition combined_path (env : Env) (output_dir path : string) : string :=
  os_path_join env output_dir
    ((os_path_splitext env (os_path_basename env path)).1 +:+ ".ico").

(** A file that is the output of one of [paths]: in the directory, named
    after the source, with the entries of its grouping. *)
Definition output_of (env : Env) (output_dir : string) (selected_sizes : list Z)
    (save_separately : bool) (paths : list string) (f : IcoFile) : Prop :=
  ∃ path, path ∈ paths ∧
    if save_separately then
      ∃ size, size ∈ selected_sizes ∧
        ico_path f = separate_path env output_dir path size ∧
        ico_sizes f = [(size, size)]
    else
      ico_path f = combined_path env output_dir path ∧
      ico_sizes f = (λ s, (s, s)) <$> selected_sizes.

(** ** Sample data *)

Module Sample.

(** An 8 by 2 picture, half transparent everywhere. *)
Definition strip : RasterImage :=
  mkRaster 8 2 (replicate 2 (replicate 8 (mkPixel 200 30 30 77))).

(** A 6 by 6 opaque picture. *)
Definition tile : RasterImage :=
  mkRaster 6 6 (replicate 6 (replicate 6 (mkPixel 10 20 30 255))).

(** A single transparent pixel. *)
Definition dot : RasterImage := mkRaster 1 1 [[mkPixel 1 2 3 0]].

(** A file system with one oversized file and one missing file, a
    decoder that rejects ["corrupt.png"], and an encoder that never
    fails. *)
Definition env : Env := {|
  os_path_getsize path :=
    if decide (path = "huge.png") then Some (5 * 1024 * 1024)
    else if decide (path = "missing.png") then None
    else Some 1000;
  os_path_basename path := path;
  os_path_splitext path :=
    let n := String.length path in
    (String.substring 0 (n - 4) path, String.substring (n - 4) 4 path);
  os_path_join dir name := dir +:+ "/" +:+ name;
  Image_open path :=
    if decide (path = "corrupt.png") then inl "cannot identify image file"
    else inr strip;
  Image_save _ _ _ _ := None
|}.

Definition boxes (checked : list Z) : Z → bool :=
  λ size, bool_decide (size ∈ checked).

Definition window (files : list string) (checked : list Z) (use_32bit separately : bool)
  : Widgets :=
  {| file_list := files; radius_slider := 0; size_checkboxes := boxes checked;
     bit_32 := use_32bit; save_separately_checkbox := separately |}.

(** 16 and 256 ticked, 8-bit mode, one good image. *)
Definition eight_bit_with_256 : Widgets := window ["a.png"] [16; 256] false false.

(** 256 alone ticked, 8-bit mode. *)
Definition eight_bit_only_256 : Widgets := window ["a.png"] [256] false false.

(** Three sources, the first one unreadable; 16 and 32, 32-bit mode,
    one combined file for each source. *)
Definition batch_corrupt_first : Widgets :=
  window ["corrupt.png"; "a.png"; "b.png"] [16; 32] true false.

(** The same sources with the unreadable one in the middle. *)
Definition batch_corrupt_second : Widgets :=
  window ["a.png"; "corrupt.png"; "b.png"] [16; 32] true false.

(** Two good sources, one file for each size. *)
Definition batch_separate : Widgets := window ["a.png"; "b.png"] [16; 32] true true.

(** The same world with an encoder that fails on the 32 by 32 entry
    alone. *)
Definition env_no_32 : Env := {|
  os_path_getsize := os_path_getsize env;
  os_path_basename := os_path_basename env;
  os_path_splitext := os_path_splitext env;
  os_path_join := os_path_join env;
  Image_open := Image_open env;
  Image_save _ _ sizes _ :=
    if decide (sizes = [(32, 32)]) then Some "encoder error" else None
|}.

(** One good source, three sizes, one file for each size. *)
Definition three_sizes_separate : Widgets := window ["a.png"] [16; 32; 48] true true.

End Sample.

(** * Properties *)

(** ** The clamp *)

Lemma py_min_two (a b c : Z) : py_min a [b; c] = Z.min a (Z.min b c).
Proof.
  unfold py_min; simpl.
  destruct (Z.ltb_spec b a), (Z.ltb_spec c a); try lia;
    destruct (Z.ltb_spec c b); lia.
Qed.

Lemma safe_radius_min (image : RasterImage) (radius : Z) :
  safe_radius image radius = Z.min radius (Z.min (width image / 2) (height image / 2)).
Proof. apply py_min_two. Qed.

(** Floor division by two: the quotient [q] with [2 q ≤ n < 2 q + 2]. *)
Lemma floor_half (n : Z) : 2 * (n / 2) ≤ n < 2 * (n / 2) + 2.
Proof. pose proof (Z.mod_pos_bound n 2); pose proof (Z.div_mod n 2); lia. Qed.

(** C3. The corner radius the mask is drawn with is
    [min(radius, width // 2, height // 2)], the halves being floors: it is
    the value of [safe_radius], and the mask handed to [putalpha] is the
    rounded rectangle of exactly that radius. *)
Theorem safe_radius_is_clamped (image : RasterImage) (radius : Z) :
  let w := width image in
  let h := height image in
  let r := Z.min radius (Z.min (w / 2) (h / 2)) in
  safe_radius image radius = r ∧
  (2 * (w / 2) ≤ w < 2 * (w / 2) + 2) ∧
  (2 * (h / 2) ≤ h < 2 * (h / 2) + 2) ∧
  rounded_mask image radius =
    rounded_rectangle (Image_new_L (w, h) 0) (0, 0, w, h) r 255.
Proof.
  cbv zeta. repeat apply conj.
  - apply safe_radius_min.
  - apply floor_half.
  - apply floor_half.
  - apply floor_half.
  - apply floor_half.
  - unfold rounded_mask. by rewrite safe_radius_min.
Qed.

Example safe_radius_small_image :
  safe_radius Sample.strip 512 = 1 ∧ safe_radius Sample.tile 2 = 2 ∧
  safe_radius Sample.dot 5 = 0.
Proof. done. Qed.

(** ** Shapes of masks and images *)

Lemma draw_shape_well_formed covers fill (m : GreyImage) :
  grey_well_formed m → grey_well_formed (draw_shape covers fill m).
Proof.
  intros [Hlen Hrows]. split; simpl.
  - by rewrite length_imap.
  - apply Forall_lookup_2. intros y row Hy.
    apply list_lookup_imap_Some in Hy as (row' & Hrow' & ->).
    rewrite length_imap. by eapply Forall_lookup_1 in Hrows.
Qed.

Lemma Image_new_L_well_formed (sz : Z * Z) (color : Z) :
  grey_well_formed (Image_new_L sz color).
Proof.
  split; simpl.
  - apply length_replicate.
  - apply Forall_replicate, length_replicate.
Qed.

Lemma rounded_mask_well_formed (image : RasterImage) (radius : Z) :
  grey_well_formed (rounded_mask image radius).
Proof. apply draw_shape_well_formed, Image_new_L_well_formed. Qed.

Lemma same_shape {A B} (n k : nat) (l : list (list A)) (m : list (list B)) :
  length l = n → Forall (λ row, length row = k) l →
  length m = n → Forall (λ row, length row = k) m →
  Forall2 (λ row mrow, length row = length mrow) l m.
Proof.
  intros Hl Hlk Hm Hmk.
  apply Forall2_same_length_lookup_2; [congruence|].
  intros i row mrow Hrow Hmrow.
  eapply Forall_lookup_1 in Hlk; [|done].
  eapply Forall_lookup_1 in Hmk; [|done].
  simpl in *. congruence.
Qed.

Lemma rounded_mask_same_shape (image : RasterImage) (radius : Z) :
  well_formed image →
  Forall2 (λ row mrow, length row = length mrow)
          (rows image) (grows (rounded_mask image radius)).
Proof.
  intros [Hlen Hrows].
  destruct (rounded_mask_well_formed image radius) as [Hmlen Hmrows].
  by eapply same_shape.
Qed.

(** ** [putalpha] *)

Lemma alpha_zip_row (row : list Pixel) (mrow : list Z) :
  length row = length mrow → alpha <$> zip_with set_alpha row mrow = mrow.
Proof.
  revert mrow. induction row as [|p row IH]; intros [|a mrow] Hlen;
    simplify_eq/=; [done|]. f_equal. by apply IH.
Qed.

Lemma rgb_zip_row (row : list Pixel) (mrow : list Z) :
  length row = length mrow → rgb <$> zip_with set_alpha row mrow = rgb <$> row.
Proof.
  revert mrow. induction row as [|p row IH]; intros [|a mrow] Hlen;
    simplify_eq/=; [done|]. f_equal. by apply IH.
Qed.

Lemma alpha_zip_rows (l : list (list Pixel)) (m : list (list Z)) :
  Forall2 (λ row mrow, length row = length mrow) l m →
  fmap (M := list) alpha <$> zip_with (zip_with set_alpha) l m = m.
Proof.
  induction 1 as [|row mrow l m Hrow _ IH]; csimpl; [done|].
  f_equal; [by apply alpha_zip_row | done].
Qed.

Lemma rgb_zip_rows (l : list (list Pixel)) (m : list (list Z)) :
  Forall2 (λ row mrow, length row = length mrow) l m →
  fmap (M := list) rgb <$> zip_with (zip_with set_alpha) l m = fmap rgb <$> l.
Proof.
  induction 1 as [|row mrow l m Hrow _ IH]; csimpl; [done|].
  f_equal; [by apply rgb_zip_row | done].
Qed.

Lemma length_zip_rows (k : nat) (l : list (list Pixel)) (m : list (list Z)) :
  Forall2 (λ row mrow, length row = length mrow) l m →
  Forall (λ row, length row = k) l →
  Forall (λ row, length row = k) (zip_with (zip_with set_alpha) l m).
Proof.
  induction 1 as [|row mrow l m Hrow _ IH]; simpl; [done|].
  intros [Hr Hrows]%Forall_cons. constructor; [|by apply IH].
  by rewrite length_zip_with_l_eq.
Qed.

Lemma putalpha_alpha (image : RasterImage) (mask : GreyImage) :
  Forall2 (λ row mrow, length row = length mrow) (rows image) (grows mask) →
  alpha_channel (putalpha image mask) = grows mask.
Proof. apply alpha_zip_rows. Qed.

Lemma putalpha_colors (image : RasterImage) (mask : GreyImage) :
  Forall2 (λ row mrow, length row = length mrow) (rows image) (grows mask) →
  color_channels (putalpha image mask) = color_channels image.
Proof. apply rgb_zip_rows. Qed.

Lemma putalpha_well_formed (image : RasterImage) (mask : GreyImage) :
  Forall2 (λ row mrow, length row = length mrow) (rows image) (grows mask) →
  well_formed image → well_formed (putalpha image mask).
Proof.
  intros Hshape [Hlen Hrows]. split; simpl.
  - rewrite length_zip_with_l_eq; [done|]. by eapply Forall2_length.
  - by apply length_zip_rows.
Qed.

Lemma rounded_corners_alpha (image : RasterImage) (radius : Z) :
  well_formed image →
  alpha_channel (rounded_corners image radius) = grows (rounded_mask image radius).
Proof.
  intros Hwf. pose proof (rounded_mask_same_shape image radius Hwf) as Hshape.
  by apply (putalpha_alpha (copy image)).
Qed.

(** C6. The result has the rounded-rectangle mask as its alpha channel,
    whatever the alpha of the source was, and the colours of the source. *)
Theorem rounded_corners_replaces_alpha (image : RasterImage) (radius : Z) :
  well_formed image →
  alpha_channel (rounded_corners image radius) = grows (rounded_mask image radius) ∧
  (∀ other, well_formed other → size other = size image →
     color_channels other = color_channels image →
     alpha_channel (rounded_corners other radius) =
     alpha_channel (rounded_corners image radius)) ∧
  color_channels (rounded_corners image radius) = color_channels image ∧
  size (rounded_corners image radius) = size image ∧
  well_formed (rounded_corners image radius).
Proof.
  intros Hwf. pose proof (rounded_mask_same_shape image radius Hwf) as Hshape.
  split_and!.
  - by apply rounded_corners_alpha.
  - intros other Hother Hsize _. rewrite !rounded_corners_alpha by done.
    unfold rounded_mask, safe_radius, size in *.
    injection Hsize as Hw Hh. by rewrite Hw, Hh.
  - by apply (putalpha_colors (copy image)).
  - done.
  - by apply (putalpha_well_formed (copy image)).
Qed.

Lemma Sample_strip_well_formed : well_formed Sample.strip.
Proof. split; [done|]. by repeat constructor. Qed.

Lemma rounded_corners_replaces_alpha_witness :
  well_formed Sample.strip ∧
  alpha_channel Sample.strip = replicate 2 (replicate 8 77) ∧
  alpha_channel (rounded_corners Sample.strip 1) = grows (rounded_mask Sample.strip 1) ∧
  color_channels (rounded_corners Sample.strip 1) = color_channels Sample.strip.
Proof.
  split; [exact Sample_strip_well_formed|]. split; [reflexivity|].
  destruct (rounded_corners_replaces_alpha Sample.strip 1 Sample_strip_well_formed)
    as (Halpha & _ & Hcolors & _).
  by split.
Defined.

(** The source alpha plays no part: two images of one size get one alpha. *)
Lemma rounded_corners_alpha_discarded (image1 image2 : RasterImage) (radius : Z) :
  well_formed image1 → well_formed image2 → size image1 = size image2 →
  alpha_channel (rounded_corners image1 radius) =
  alpha_channel (rounded_corners image2 radius).
Proof.
  intros H1 H2 Hsz. rewrite !rounded_corners_alpha by done.
  unfold rounded_mask, safe_radius, size in *.
  injection Hsz as Hw Hh. by rewrite Hw, Hh.
Qed.

(** ** The shape of the mask for large radii *)

(** Two shapes that agree on the pixels of an image draw the same mask. *)
Lemma draw_shape_ext (covers1 covers2 : Z → Z → bool) (fill : Z) (m : GreyImage) :
  grey_well_formed m →
  (∀ x y, 0 ≤ x < gwidth m → 0 ≤ y < gheight m → covers1 x y = covers2 x y) →
  draw_shape covers1 fill m = draw_shape covers2 fill m.
Proof.
  intros [Hlen Hrows] Hagree. unfold draw_shape. f_equal.
  apply imap_ext. intros y row Hy.
  apply imap_ext. intros x v Hx.
  pose proof (lookup_lt_Some _ _ _ Hy) as Hylt.
  pose proof (lookup_lt_Some _ _ _ Hx) as Hxlt.
  eapply Forall_lookup_1 in Hrows; [|done]. simpl in Hrows.
  rewrite Hagree; [done| lia | lia].
Qed.

(** On a square of even side [2 k], the rounded rectangle of radius [k]
    covers the pixels of the inscribed circle and no others. *)
Lemma full_radius_is_circle (k x y : Z) :
  0 < k → 0 ≤ x < 2 * k → 0 ≤ y < 2 * k →
  inside_rounded_rectangle (0, 0, 2 * k, 2 * k) k x y =
  inside_inscribed_ellipse (2 * k) (2 * k) x y.
Proof.
  intros Hk Hx Hy. unfold inside_rounded_rectangle, inside_inscribed_ellipse, in_disc.
  replace (0 <=? x) with true by (symmetry; apply Z.leb_le; lia).
  replace (x <? 2 * k) with true by (symmetry; apply Z.ltb_lt; lia).
  replace (0 <=? y) with true by (symmetry; apply Z.leb_le; lia).
  replace (y <? 2 * k) with true by (symmetry; apply Z.ltb_lt; lia).
  replace (2 * k - k) with k by lia. replace (0 + k) with k by lia.
  assert ((x <? k) || (k <=? x) = true) as ->
    by (destruct (Z.ltb_spec x k), (Z.leb_spec k x); simpl; lia).
  assert ((y <? k) || (k <=? y) = true) as ->
    by (destruct (Z.ltb_spec y k), (Z.leb_spec k y); simpl; lia).
  simpl andb. cbv iota.
  replace (if x <? k then k else k) with k by (by destruct (x <? k)).
  replace (if y <? k then k else k) with k by (by destruct (y <? k)).
  set (a := (2 * x + 1 - 2 * k) ^ 2). set (b := (2 * y + 1 - 2 * k) ^ 2).
  set (d := (2 * k) ^ 2).
  assert (0 < d) by (subst d; nia).
  destruct (Z.leb_spec (a + b) d), (Z.leb_spec (a * d + b * d) (d * d)); try done; nia.
Qed.

(** C5, as the code has it.  A radius of at least [max(w, h) // 2] is
    clamped to [min(w // 2, h // 2)], so every such radius gives one and the
    same mask, the rounded rectangle whose corner radius is half the shorter
    side; on a square of even side that mask is the inscribed circle. *)
Theorem large_radius_mask (image : RasterImage) (radius : Z) :
  Z.max (width image) (height image) / 2 ≤ radius →
  let w := width image in
  let h := height image in
  safe_radius image radius = Z.min (w / 2) (h / 2) ∧
  rounded_mask image radius =
    rounded_rectangle (Image_new_L (w, h) 0) (0, 0, w, h) (Z.min (w / 2) (h / 2)) 255 ∧
  (w = h → Z.even w = true → rounded_mask image radius = inscribed_ellipse_mask w h).
Proof.
  intros Hr w h.
  assert (w / 2 ≤ radius ∧ h / 2 ≤ radius) as [Hw Hh].
  { split; (etrans; [|exact Hr]); apply Z.div_le_mono; lia. }
  assert (safe_radius image radius = Z.min (w / 2) (h / 2)) as Hsafe.
  { rewrite safe_radius_min. fold w h. lia. }
  split_and!; [done| |].
  - unfold rounded_mask. by rewrite Hsafe.
  - intros Hsq Heven. unfold rounded_mask, inscribed_ellipse_mask, rounded_rectangle.
    rewrite Hsafe. fold w h. unfold size. fold w h. rewrite <- Hsq. clear Hsq Hh.
    apply Zeven_bool_iff, Zeven_ex_iff in Heven as [k Hk].
    rewrite Hk, Z.min_id. replace (2 * k / 2) with k by (apply Z.div_unique_exact; lia).
    apply draw_shape_ext; [apply Image_new_L_well_formed|]. simpl.
    intros x y Hx Hy. apply full_radius_is_circle; lia.
Qed.

Lemma large_radius_mask_witness :
  Z.max (width Sample.tile) (height Sample.tile) / 2 ≤ 9 ∧
  safe_radius Sample.tile 9 = 3 ∧
  rounded_mask Sample.tile 9 = inscribed_ellipse_mask 6 6.
Proof.
  split; [by vm_compute|].
  destruct (large_radius_mask Sample.tile 9) as (Hsafe & _ & Hcircle); [by vm_compute|].
  split; [exact Hsafe | by apply Hcircle].
Defined.

(** C5, as it is worded, fails on an image that is not square: for the
    8 by 2 strip and radius 4 = max(8, 2) / 2 the clamp leaves radius 1,
    and the mask keeps the four corner pixels that the inscribed ellipse
    leaves out. *)
Lemma large_radius_not_ellipse :
  Z.max (width Sample.strip) (height Sample.strip) / 2 ≤ 4 ∧
  safe_radius Sample.strip 4 = 1 ∧
  rounded_mask Sample.strip 4 ≠ inscribed_ellipse_mask 8 2 ∧
  grows (rounded_mask Sample.strip 4) = replicate 2 (replicate 8 255) ∧
  grows (inscribed_ellipse_mask 8 2) = replicate 2 ([0] ++ replicate 6 255 ++ [0]).
Proof. split_and!; [by vm_compute | done | by vm_compute | done | done]. Qed.

(** Called with radius 0 itself, the function paints the whole mask white:
    the result is opaque everywhere, whatever the alpha of the source. *)
Lemma rounded_mask_zero_is_white (image : RasterImage) :
  grows (rounded_mask image 0) =
  replicate (Z.to_nat (height image)) (replicate (Z.to_nat (width image)) 255).
Proof.
  assert (rounded_mask image 0 =
          draw_shape (λ _ _, true) 255 (Image_new_L (size image) 0)) as ->.
  { apply draw_shape_ext; [apply Image_new_L_well_formed|]. simpl.
    intros x y Hx Hy. unfold inside_rounded_rectangle.
    pose proof (safe_radius_min image 0) as Hs.
    pose proof (floor_half (width image)). pose proof (floor_half (height image)).
    set (r := safe_radius image 0) in *.
    replace (0 <=? x) with true by (symmetry; apply Z.leb_le; lia).
    replace (x <? width image) with true by (symmetry; apply Z.ltb_lt; lia).
    replace (0 <=? y) with true by (symmetry; apply Z.leb_le; lia).
    replace (y <? height image) with true by (symmetry; apply Z.ltb_lt; lia).
    replace (x <? 0 + r) with false by (symmetry; apply Z.ltb_ge; lia).
    replace (width image - r <=? x) with false by (symmetry; apply Z.leb_gt; lia).
    done. }
  simpl. generalize (Z.to_nat (height image)) as n, (Z.to_nat (width image)) as k.
  intros n k. apply list_eq. intros y.
  rewrite list_lookup_imap. destruct (decide (y < n)%nat) as [Hy|Hy].
  - rewrite !lookup_replicate_2 by done. simpl. f_equal.
    apply list_eq. intros x. rewrite list_lookup_imap.
    destruct (decide (x < k)%nat) as [Hx|Hx].
    + by rewrite !lookup_replicate_2.
    + by rewrite !(proj1 (lookup_replicate_None _ _ _)) by lia.
  - by rewrite !(proj1 (lookup_replicate_None _ _ _)) by lia.
Qed.

Example rounded_corners_zero_on_transparent_pixel :
  alpha_channel Sample.dot = [[0]] ∧
  alpha_channel (rounded_corners Sample.dot 0) = [[255]] ∧
  alpha_channel (round_if_positive Sample.dot 0) = [[0]].
Proof. done. Qed.

(** ** The call leaves its argument alone *)

Lemma alloc_fresh (o : PilImage) (σ : store) :
  ∃ l, alloc o σ = Some (l, <[l := o]> σ) ∧ σ !! l = None.
Proof.
  exists (fresh (dom σ)). split; [done|].
  apply not_elem_of_dom, is_fresh.
Qed.

Lemma putalpha_copy (image : RasterImage) (mask : GreyImage) :
  putalpha image mask = putalpha (copy image) mask.
Proof. done. Qed.

(** C7. Run on a store that holds the image, the call returns a new
    object holding the rounded image and changes no object that was there:
    the argument keeps all its pixels. *)
Theorem apply_rounded_corners_pil_pure (σ : store) (image : loc)
    (im : RasterImage) (radius : Z) :
  σ !! image = Some (RGBA im) →
  ∃ (output : loc) (σ' : store),
    apply_rounded_corners_pil image radius σ = Some (output, σ') ∧
    σ !! output = None ∧
    output ≠ image ∧
    σ' !! output = Some (RGBA (rounded_corners im radius)) ∧
    σ' !! image = Some (RGBA im) ∧
    (∀ l o, σ !! l = Some o → σ' !! l = Some o).
Proof.
  intros Himage.
  unfold apply_rounded_corners_pil, pil_bind, Image_size, Image_new.
  rewrite Himage.
  destruct (alloc_fresh (L (Image_new_L (size im) 0)) σ) as (mask & -> & Hmask).
  assert (mask ≠ image) as Hmi by congruence.
  unfold Draw_rounded_rectangle. rewrite lookup_insert_eq, insert_insert_eq.
  set (drawn := rounded_rectangle _ _ _ _).
  assert (drawn = rounded_mask im radius) as Hdrawn by done.
  unfold Image_copy. rewrite lookup_insert_ne, Himage by done.
  destruct (alloc_fresh (RGBA im) (<[mask := L drawn]> σ)) as (output & -> & Hout).
  assert (output ≠ mask) as Hom.
  { intros ->. by rewrite lookup_insert_eq in Hout. }
  rewrite lookup_insert_ne in Hout by done.
  assert (output ≠ image) as Hoi by congruence.
  unfold Image_putalpha, pil_ret.
  rewrite lookup_insert_eq, lookup_insert_ne, lookup_insert_eq, insert_insert_eq by done.
  eexists output, _. split_and!; [done..| | |].
  - rewrite lookup_insert_eq, Hdrawn. unfold rounded_corners.
    by rewrite <- putalpha_copy.
  - by rewrite !lookup_insert_ne.
  - intros l o Hl.
    assert (output ≠ l) by (intros ->; congruence).
    assert (mask ≠ l) by (intros ->; congruence).
    by rewrite !lookup_insert_ne.
Qed.

Lemma apply_rounded_corners_pil_pure_witness :
  ({[ 5%positive := RGBA Sample.strip ]} : store) !! 5%positive = Some (RGBA Sample.strip) ∧
  ∃ (output : loc) (σ' : store),
    apply_rounded_corners_pil 5%positive 1 {[ 5%positive := RGBA Sample.strip ]}
      = Some (output, σ') ∧
    ({[ 5%positive := RGBA Sample.strip ]} : store) !! output = None ∧
    output ≠ 5%positive ∧
    σ' !! output = Some (RGBA (rounded_corners Sample.strip 1)) ∧
    σ' !! 5%positive = Some (RGBA Sample.strip) ∧
    (∀ l o, ({[ 5%positive := RGBA Sample.strip ]} : store) !! l = Some o →
            σ' !! l = Some o).
Proof.
  split; [by vm_compute|].
  apply (apply_rounded_corners_pil_pure {[ 5%positive := RGBA Sample.strip ]}
           5%positive Sample.strip 1).
  by vm_compute.
Defined.

(** ** The file list *)

Section file_list.
Context (env : Env).

(** One call appends to the list, and what it appends is new, without
    repetition, taken from the paths given, and small enough. *)
Lemma add_files_to_list_appends (items file_paths : list string) :
  ∃ added,
    (add_files_to_list env items file_paths).1 = items ++ added ∧
    NoDup added ∧
    (∀ path, path ∈ added →
      (path ∉ items) ∧ path ∈ file_paths ∧ small_enough env path).
Proof.
  revert items. induction file_paths as [|path rest IH]; intros items; simpl.
  { exists []. rewrite app_nil_r. split_and!; [done|constructor|]. by intros ? ?%elem_of_nil. }
  destruct (os_path_getsize env path) as [n|] eqn:Hsize; simpl.
  2:{ exists []. rewrite app_nil_r. split_and!; [done|constructor|]. by intros ? ?%elem_of_nil. }
  destruct (Z.ltb_spec MAX_FILE_SIZE_BYTES n) as [Hbig|Hsmall].
  { destruct (IH items) as (added & Heq & Hnd & Hadded).
    exists added. split_and!; [done..|]. intros p Hp.
    destruct (Hadded p Hp) as (? & ? & ?). split_and!; [done| |done]. by right. }
  case_bool_decide as Hnew.
  - destruct (IH (items ++ [path])) as (added & Heq & Hnd & Hadded).
    exists (path :: added). split_and!.
    + by rewrite Heq, <- app_assoc.
    + constructor; [|done]. intros Hin.
      destruct (Hadded path Hin) as (Hnot & _). apply Hnot.
      apply elem_of_app. right. by apply list_elem_of_singleton.
    + intros p [->|Hp]%elem_of_cons.
      * split_and!; [done|by left|]. by exists n.
      * destruct (Hadded p Hp) as (Hnot & ? & ?).
        split_and!; [|by right|done].
        intros Hitems. apply Hnot, elem_of_app. by left.
  - destruct (IH items) as (added & Heq & Hnd & Hadded).
    exists added. split_and!; [done..|]. intros p Hp.
    destruct (Hadded p Hp) as (? & ? & ?). split_and!; [done| |done]. by right.
Qed.

(** The invariant of the list, kept by a call. *)
Lemma add_files_to_list_invariant (items file_paths : list string) :
  NoDup items → Forall (small_enough env) items →
  NoDup (add_files_to_list env items file_paths).1 ∧
  Forall (small_enough env) (add_files_to_list env items file_paths).1.
Proof.
  intros Hnd Hsmall.
  destruct (add_files_to_list_appends items file_paths) as (added & -> & Hnd' & Hadded).
  split.
  - apply NoDup_app. split_and!; [done| |done].
    intros p Hp Hp'. by destruct (Hadded p Hp').
  - apply Forall_app. split; [done|].
    apply Forall_forall. intros p Hp. by destruct (Hadded p Hp) as (_ & _ & ?).
Qed.

Lemma fold_add_files_invariant (calls : list (list string)) (items : list string) :
  NoDup items → Forall (small_enough env) items →
  let items' :=
    fold_left (λ items file_paths, (add_files_to_list env items file_paths).1)
              calls items in
  NoDup items' ∧ Forall (small_enough env) items'.
Proof.
  revert items. induction calls as [|file_paths calls IH]; intros items Hnd Hsmall; simpl.
  - done.
  - destruct (add_files_to_list_invariant items file_paths Hnd Hsmall).
    by apply IH.
Qed.
End file_list.

(** C9. A call only appends; what it appends is not in the list yet, has
    no repetition, and is at most 4 MiB.  So after every call, from the
    empty list of a new window on, the entries are pairwise distinct and
    each names a file of at most 4 MiB. *)
Theorem file_list_distinct_and_small (env : Env) :
  (∀ items file_paths, ∃ added,
      (add_files_to_list env items file_paths).1 = items ++ added ∧
      NoDup added ∧
      (∀ path, path ∈ added →
        (path ∉ items) ∧ path ∈ file_paths ∧
        ∃ n, os_path_getsize env path = Some n ∧ n ≤ 4 * 1024 * 1024)) ∧
  (∀ calls,
      NoDup (file_list_after env calls) ∧
      Forall (λ path, ∃ n, os_path_getsize env path = Some n ∧ n ≤ 4 * 1024 * 1024)
             (file_list_after env calls)).
Proof.
  split.
  - apply add_files_to_list_appends.
  - intros calls. apply (fold_add_files_invariant env calls []); constructor.
Qed.

Example add_files_to_list_sample :
  add_files_to_list Sample.env ["x.png"]
    ["a.png"; "huge.png"; "a.png"; "x.png"; "b.png"; "missing.png"; "c.png"]
  = (["x.png"; "a.png"; "b.png"], true).
Proof. by vm_compute. Qed.

(** ** The batch conversion *)

Lemma saved_files_app (evs1 evs2 : list Event) :
  saved_files (evs1 ++ evs2) = saved_files evs1 ++ saved_files evs2.
Proof. apply omap_app. Qed.

Lemma message_boxes_app (evs1 evs2 : list Event) :
  message_boxes (evs1 ++ evs2) = message_boxes evs1 ++ message_boxes evs2.
Proof. apply omap_app. Qed.

(** Past the two first guards, the run is the warning, if any, and then
    either the "No Sizes Selected" box or the loop over the files. *)
Lemma run_conversion_past_guards (env : Env) (w : Widgets) (output_dir : string) :
  file_list w ≠ [] → output_dir ≠ "" →
  run_conversion env w output_dir =
  warning_events w ++
  if bool_decide (selected_sizes_of w = []) then [no_sizes_box]
  else
    [SetStatus "Converting..."; ProcessEvents;
     SetMaximum (if save_separately_checkbox w
                 then Z.of_nat (length (file_list w)) *
                      Z.of_nat (length (selected_sizes_of w))
                 else Z.of_nat (length (file_list w)));
     SetValue 0] ++
    convert_files env output_dir (radius_slider w) (selected_sizes_of w)
                  (bit_32 w) (save_separately_checkbox w) (file_list w) 0.
Proof.
  intros Hfiles Hdir. unfold run_conversion, warning_events, selected_sizes_of.
  rewrite bool_decide_eq_false_2 by (by destruct (file_list w)).
  rewrite bool_decide_eq_false_2 by done.
  by destruct (bool_decide (256 ∈ checked_sizes w) && negb (bit_32 w)).
Qed.

Lemma run_conversion_no_files (env : Env) (w : Widgets) (output_dir : string) :
  file_list w = [] → run_conversion env w output_dir = [no_files_box].
Proof. intros Hfiles. unfold run_conversion. by rewrite Hfiles. Qed.

Lemma run_conversion_cancelled (env : Env) (w : Widgets) :
  file_list w ≠ [] → run_conversion env w "" = [].
Proof.
  intros Hfiles. unfold run_conversion.
  by rewrite bool_decide_eq_false_2 by (by destruct (file_list w)).
Qed.

Section loop.
Context (env : Env) (output_dir : string) (radius : Z)
        (selected_sizes : list Z) (use_32bit save_separately : bool).

Local Abbreviation save_each_size :=
  (save_each_size env output_dir use_32bit).
Local Abbreviation convert_file :=
  (convert_file env output_dir radius selected_sizes use_32bit save_separately).
Local Abbreviation convert_files :=
  (convert_files env output_dir radius selected_sizes use_32bit save_separately).

Lemma save_each_size_written img base_name sizes c :
  Forall (written_as use_32bit sizes) (saved_files (save_each_size img base_name sizes c).1) ∧
  message_boxes (save_each_size img base_name sizes c).1 = [].
Proof.
  revert c. induction sizes as [|size rest IH]; intros c; simpl; [done|].
  unfold save. destruct (Image_save env _ _ _ _) as [e|]; simpl; [done|].
  destruct (IH (c + 1)) as [Hw Hm].
  destruct (save_each_size img base_name rest (c + 1)) as [evs r]; simpl in *.
  split; [|done]. constructor.
  - split; [done|]. simpl. intros entry ->%list_elem_of_singleton.
    exists size. split; [by left|done].
  - eapply Forall_impl; [exact Hw|]. intros f [Hf Hs]. split; [done|].
    intros entry Hentry. destruct (Hs entry Hentry) as (s & ? & ?).
    exists s. split; [by right|done].
Qed.

Lemma convert_file_written path base_name c :
  Forall (written_as use_32bit selected_sizes) (saved_files (convert_file path base_name c).1) ∧
  message_boxes (convert_file path base_name c).1 = [].
Proof.
  unfold convert_file. destruct (Image_open env path) as [e|img]; [done|].
  destruct save_separately; [apply save_each_size_written|].
  unfold save. destruct (Image_save env _ _ _ _) as [e|]; simpl; [done|].
  split; [|done]. constructor; [|done]. split; [done|]. simpl.
  intros entry (s & -> & Hs)%list_elem_of_fmap. by exists s.
Qed.

(** Every file the loop writes carries selected sizes only, in the
    format of the bit depth. *)
Lemma convert_files_written paths c :
  Forall (written_as use_32bit selected_sizes) (saved_files (convert_files paths c)).
Proof.
  revert c. induction paths as [|path rest IH]; intros c; simpl; [done|].
  set (base_name := (os_path_splitext env (os_path_basename env path)).1).
  destruct (convert_file_written path base_name c) as [Hw _].
  destruct (convert_file path base_name c) as [evs [e|c']]; simpl in *;
    rewrite saved_files_app; apply Forall_app; split; done.
Qed.

(** Every file the loop writes holds the image decoded from one of the
    paths, after the rounding step. *)
Lemma save_each_size_image img base_name sizes c :
  Forall (λ f, ico_image f = img)
         (saved_files (save_each_size img base_name sizes c).1).
Proof.
  revert c. induction sizes as [|size rest IH]; intros c; simpl; [done|].
  unfold save. destruct (Image_save env _ _ _ _) as [e|]; simpl; [done|].
  specialize (IH (c + 1)).
  destruct (save_each_size img base_name rest (c + 1)) as [evs r]; simpl in *.
  by constructor.
Qed.

Lemma convert_file_image path base_name c :
  Forall (λ f, ∃ img, Image_open env path = inr img ∧
                      ico_image f = round_if_positive img radius)
         (saved_files (convert_file path base_name c).1).
Proof.
  unfold convert_file. destruct (Image_open env path) as [e|img]; [done|].
  destruct save_separately.
  - eapply Forall_impl; [apply save_each_size_image|]. simpl. eauto.
  - unfold save. destruct (Image_save env _ _ _ _) as [e|]; simpl; [done|].
    constructor; [|done]. eauto.
Qed.

Lemma convert_files_image paths c :
  Forall (λ f, ∃ path img, path ∈ paths ∧ Image_open env path = inr img ∧
                           ico_image f = round_if_positive img radius)
         (saved_files (convert_files paths c)).
Proof.
  revert c. induction paths as [|path rest IH]; intros c; simpl; [done|].
  set (base_name := (os_path_splitext env (os_path_basename env path)).1).
  pose proof (convert_file_image path base_name c) as Hfile.
  destruct (convert_file path base_name c) as [evs [e|c']]; simpl in *;
    rewrite saved_files_app; apply Forall_app; split.
  - eapply Forall_impl; [exact Hfile|]. intros f (img & ? & ?).
    exists path, img. split_and!; [by left|done..].
  - done.
  - eapply Forall_impl; [exact Hfile|]. intros f (img & ? & ?).
    exists path, img. split_and!; [by left|done..].
  - eapply Forall_impl; [apply IH|]. intros f (p & img & ? & ? & ?).
    exists p, img. split_and!; [by right|done..].
Qed.

(** *** When nothing fails *)

Context (Hsave : ∀ p im szs f, Image_save env p im szs f = None).

Lemma save_each_size_ok img base_name sizes c :
  ∃ evs,
    save_each_size img base_name sizes c = (evs, inr (c + Z.of_nat (length sizes))) ∧
    saved_files evs =
      (λ size,
        {| ico_path := os_path_join env output_dir
                         (base_name +:+ "_" +:+ pretty size +:+ ".ico");
           ico_image := img;
           ico_sizes := [(size, size)];
           ico_format := bitmap_format use_32bit |}) <$> sizes.
Proof.
  revert c. induction sizes as [|size rest IH]; intros c; simpl.
  { exists []. split; [|done]. unfold try_ret. do 2 f_equal. lia. }
  unfold save. rewrite Hsave. simpl.
  destruct (IH (c + 1)) as (evs & -> & Hevs). simpl.
  eexists. split; [do 2 f_equal; lia|]. simpl. by rewrite Hevs.
Qed.

Lemma bitmap_format_alt : bitmap_format use_32bit = if use_32bit then png else bmp.
Proof. by destruct use_32bit. Qed.

(** The files of a list that all decode are written one after the
    other, and the loop goes on behind them. *)
Lemma convert_files_ok (paths rest : list string) (c : Z) :
  Forall (λ path, ∃ img, Image_open env path = inr img) paths →
  ∃ evs c',
    convert_files (paths ++ rest) c = evs ++ convert_files rest c' ∧
    saved_files evs =
      expected_outputs env output_dir radius selected_sizes use_32bit
                       save_separately paths ∧
    message_boxes evs = [].
Proof.
  intros Hall. revert c.
  induction Hall as [|path paths [img Hopen] _ IH]; intros c.
  { by exists [], c. }
  simpl.
  set (base_name := (os_path_splitext env (os_path_basename env path)).1).
  pose proof (convert_file_written path base_name c) as [_ Hboxes].
  assert (∃ evs c', convert_file path base_name c = (evs, inr c') ∧
            saved_files evs =
              expected_outputs env output_dir radius selected_sizes use_32bit
                               save_separately [path])
    as (evs & c' & Hfile & Hsaved).
  { unfold convert_file, expected_outputs. simpl. rewrite Hopen, app_nil_r.
    fold base_name. rewrite <- bitmap_format_alt.
    destruct save_separately.
    - destruct (save_each_size_ok (round_if_positive img radius) base_name
                  selected_sizes c) as (evs & -> & Hevs). eauto.
    - unfold save. rewrite Hsave. simpl. eauto. }
  rewrite Hfile in *. simpl in Hboxes.
  destruct (IH c') as (evs' & c'' & -> & Hsaved' & Hboxes').
  exists (evs ++ evs'), c''. split_and!.
  - by rewrite app_assoc.
  - rewrite saved_files_app, Hsaved, Hsaved'. unfold expected_outputs.
    by rewrite <- bind_app.
  - by rewrite message_boxes_app, Hboxes, Hboxes'.
Qed.
End loop.

(** *** The guard on 256 in 8-bit mode *)

Lemma list_remove_last (x : Z) (l : list Z) :
  x ∉ l → list_remove x (l ++ [x]) = l.
Proof.
  induction l as [|y l IH]; intros Hx; simpl.
  - by case_decide.
  - apply not_elem_of_cons in Hx as [Hxy Hx].
    case_decide; [done|]. by rewrite IH.
Qed.

Lemma checked_sizes_uncheck_256 (w : Widgets) :
  size_checkboxes w 256 = true →
  checked_sizes w = checked_sizes (uncheck 256 w) ++ [256] ∧
  (256 ∉ checked_sizes (uncheck 256 w)).
Proof.
  intros H256. unfold checked_sizes, uncheck, ICON_SIZES. simpl.
  assert (∀ l : list Z, 256 ∉ l ↔ Forall (λ s, s ≠ 256) l) as Hnotin.
  { intros l. rewrite Forall_forall. split; [by intros ? ? ? ->|by intros H ?%H]. }
  rewrite Hnotin, !filter_cons, !filter_nil. simpl. rewrite H256.
  destruct (size_checkboxes w 16), (size_checkboxes w 32), (size_checkboxes w 48),
    (size_checkboxes w 64), (size_checkboxes w 128);
    (split; [by vm_compute|by repeat constructor]).
Qed.

(** In 8-bit mode with the 256 box ticked, the sizes that go on are the
    ones that would be selected with the box cleared. *)
Lemma selected_sizes_without_256 (w : Widgets) :
  size_checkboxes w 256 = true → bit_32 w = false →
  selected_sizes_of w = selected_sizes_of (uncheck 256 w) ∧
  selected_sizes_of (uncheck 256 w) = checked_sizes (uncheck 256 w) ∧
  (256 ∉ selected_sizes_of w) ∧
  warning_events w = [warning_256] ∧
  warning_events (uncheck 256 w) = [].
Proof.
  intros H256 H8. destruct (checked_sizes_uncheck_256 w H256) as [Heq Hnot].
  assert (selected_sizes_of (uncheck 256 w) = checked_sizes (uncheck 256 w)) as Hun.
  { unfold selected_sizes_of. by rewrite bool_decide_eq_false_2. }
  assert (selected_sizes_of w = checked_sizes (uncheck 256 w)) as Hsel.
  { unfold selected_sizes_of. rewrite H8, Heq. simpl.
    rewrite bool_decide_eq_true_2 by (apply elem_of_app; right; by left).
    simpl. by apply list_remove_last. }
  split_and!.
  - by rewrite Hsel, Hun.
  - done.
  - by rewrite Hsel.
  - unfold warning_events. rewrite H8, Heq.
    by rewrite bool_decide_eq_true_2 by (apply elem_of_app; right; by left).
  - unfold warning_events. by rewrite bool_decide_eq_false_2.
Qed.

Lemma selected_sizes_32bit (w : Widgets) :
  bit_32 w = true → selected_sizes_of w = checked_sizes w.
Proof.
  intros H32. unfold selected_sizes_of. rewrite H32.
  by rewrite andb_false_r.
Qed.

(** The files of a run always carry sizes that remain selected. *)
Lemma run_conversion_written (env : Env) (w : Widgets) (output_dir : string) :
  Forall (written_as (bit_32 w) (selected_sizes_of w))
         (saved_files (run_conversion env w output_dir)).
Proof.
  destruct (decide (file_list w = [])) as [Hfiles|Hfiles].
  { by rewrite run_conversion_no_files. }
  destruct (decide (output_dir = "")) as [->|Hdir].
  { by rewrite run_conversion_cancelled. }
  rewrite run_conversion_past_guards by done.
  rewrite saved_files_app. apply Forall_app. split.
  { unfold warning_events. by case_match. }
  case_bool_decide; [done|].
  rewrite saved_files_app. apply Forall_app. split; [done|].
  apply convert_files_written.
Qed.

(** C1, as the code has it.  With 256 ticked in 8-bit mode the run does
    not fail: it shows the warning, takes 256 out, and goes on as it would
    with the 256 box cleared; no file it writes has a 256 entry, and all
    are written as bitmaps. *)
Theorem size_256_dropped_in_8bit (env : Env) (w : Widgets) (output_dir : string) :
  size_checkboxes w 256 = true → bit_32 w = false →
  saved_files (run_conversion env w output_dir) =
    saved_files (run_conversion env (uncheck 256 w) output_dir) ∧
  (∀ f, f ∈ saved_files (run_conversion env w output_dir) →
        ((256, 256) ∉ ico_sizes f) ∧ ico_format f = bmp) ∧
  (file_list w ≠ [] → output_dir ≠ "" →
   run_conversion env w output_dir =
     warning_256 :: run_conversion env (uncheck 256 w) output_dir).
Proof.
  intros H256 H8.
  destruct (selected_sizes_without_256 w H256 H8) as (Hsel & _ & Hnot & Hwarn & Hnowarn).
  assert (file_list w ≠ [] → output_dir ≠ "" →
          run_conversion env w output_dir =
            warning_256 :: run_conversion env (uncheck 256 w) output_dir) as Hrun.
  { intros Hfiles Hdir.
    rewrite !run_conversion_past_guards by done.
    by rewrite Hwarn, Hnowarn, Hsel. }
  split_and!; [| |done].
  - destruct (decide (file_list w = [])) as [Hfiles|Hfiles].
    { by rewrite !run_conversion_no_files. }
    destruct (decide (output_dir = "")) as [->|Hdir].
    { by rewrite !run_conversion_cancelled. }
    by rewrite Hrun.
  - intros f Hf.
    pose proof (run_conversion_written env w output_dir) as Hall.
    rewrite Forall_forall in Hall. destruct (Hall f Hf) as [Hfmt Hentries].
    split; [|by rewrite Hfmt, H8].
    intros (s & Hs & [= <- _])%Hentries. done.
Qed.

Lemma size_256_dropped_in_8bit_witness :
  size_checkboxes Sample.eight_bit_with_256 256 = true ∧
  bit_32 Sample.eight_bit_with_256 = false ∧
  saved_files (run_conversion Sample.env Sample.eight_bit_with_256 "out") =
    saved_files (run_conversion Sample.env (uncheck 256 Sample.eight_bit_with_256) "out") ∧
  (∀ f, f ∈ saved_files (run_conversion Sample.env Sample.eight_bit_with_256 "out") →
        ((256, 256) ∉ ico_sizes f) ∧ ico_format f = bmp) ∧
  (file_list Sample.eight_bit_with_256 ≠ [] → "out" ≠ "" →
   run_conversion Sample.env Sample.eight_bit_with_256 "out" =
     warning_256 :: run_conversion Sample.env (uncheck 256 Sample.eight_bit_with_256) "out").
Proof.
  split; [reflexivity|]. split; [reflexivity|].
  apply (size_256_dropped_in_8bit Sample.env Sample.eight_bit_with_256 "out"); reflexivity.
Defined.

(** C1, as it is worded, fails: with 16 and 256 ticked in 8-bit mode and
    one good image in the list, the run reports no failure and writes
    [a.ico] with the 16 entry alone. *)
Lemma size_256_in_8bit_still_writes :
  checked_sizes Sample.eight_bit_with_256 = [16; 256] ∧
  bit_32 Sample.eight_bit_with_256 = false ∧
  run_conversion Sample.env Sample.eight_bit_with_256 "out" =
    [ warning_256;
      SetStatus "Converting..."; ProcessEvents; SetMaximum 1; SetValue 0;
      Save "out/a.ico" Sample.strip [(16, 16)] bmp;
      SetValue 1;
      SetStatus "Success! 1 file(s) created."; SingleShot 4000 ] ∧
  saved_files (run_conversion Sample.env Sample.eight_bit_with_256 "out") =
    [ {| ico_path := "out/a.ico"; ico_image := Sample.strip;
         ico_sizes := [(16, 16)]; ico_format := bmp |} ].
Proof. split_and!; by vm_compute. Qed.

(** *** The two ways of grouping the output *)

(** C8. When the run gets to the loop and nothing fails, the files
    written are, for each source in turn, [<name>.ico] with one entry for
    each selected size (combined), or one [<name>_<size>.ico] for each
    selected size with that entry alone (separate); both by the same
    [save] call, with the format of the bit depth. *)
Theorem outputs_by_grouping (env : Env) (w : Widgets) (output_dir : string) :
  output_dir ≠ "" → selected_sizes_of w ≠ [] →
  (∀ path, path ∈ file_list w → ∃ img, Image_open env path = inr img) →
  (∀ p im szs f, Image_save env p im szs f = None) →
  saved_files (run_conversion env w output_dir) =
    file_list w ≫= λ path,
      match Image_open env path with
      | inl _ => []
      | inr img =>
        let name := (os_path_splitext env (os_path_basename env path)).1 in
        let image := round_if_positive img (radius_slider w) in
        let format := if bit_32 w then png else bmp in
        if save_separately_checkbox w then
          (λ size,
            {| ico_path := os_path_join env output_dir
                             (name +:+ "_" +:+ pretty size +:+ ".ico");
               ico_image := image;
               ico_sizes := [(size, size)];
               ico_format := format |}) <$> selected_sizes_of w
        else
          [ {| ico_path := os_path_join env output_dir (name +:+ ".ico");
               ico_image := image;
               ico_sizes := (λ s, (s, s)) <$> selected_sizes_of w;
               ico_format := format |} ]
      end.
Proof.
  intros Hdir Hsizes Hopen Hsave.
  change (saved_files (run_conversion env w output_dir) =
          expected_outputs env output_dir (radius_slider w) (selected_sizes_of w)
            (bit_32 w) (save_separately_checkbox w) (file_list w)).
  destruct (decide (file_list w = [])) as [Hfiles|Hfiles].
  { rewrite run_conversion_no_files by done. by rewrite Hfiles. }
  rewrite run_conversion_past_guards by done.
  rewrite bool_decide_eq_false_2 by done.
  destruct (convert_files_ok env output_dir (radius_slider w) (selected_sizes_of w)
              (bit_32 w) (save_separately_checkbox w) Hsave (file_list w) [] 0)
    as (evs & c' & Hrun & Hsaved & _).
  { by apply Forall_forall. }
  rewrite app_nil_r in Hrun. rewrite Hrun, !saved_files_app, Hsaved.
  assert (saved_files (warning_events w) = []) as -> by (unfold warning_events; by case_match).
  simpl. by rewrite app_nil_r.
Qed.

Lemma outputs_by_grouping_witness :
  "out" ≠ "" ∧ selected_sizes_of Sample.batch_separate ≠ [] ∧
  saved_files (run_conversion Sample.env Sample.batch_separate "out") =
    [ {| ico_path := "out/a_16.ico"; ico_image := Sample.strip;
         ico_sizes := [(16, 16)]; ico_format := png |};
      {| ico_path := "out/a_32.ico"; ico_image := Sample.strip;
         ico_sizes := [(32, 32)]; ico_format := png |};
      {| ico_path := "out/b_16.ico"; ico_image := Sample.strip;
         ico_sizes := [(16, 16)]; ico_format := png |};
      {| ico_path := "out/b_32.ico"; ico_image := Sample.strip;
         ico_sizes := [(32, 32)]; ico_format := png |} ].
Proof.
  split; [discriminate|]. split; [discriminate|].
  rewrite (outputs_by_grouping Sample.env Sample.batch_separate "out").
  - reflexivity.
  - discriminate.
  - discriminate.
  - intros path [->|[->|[]%elem_of_nil]%elem_of_cons]%elem_of_cons;
      eexists; reflexivity.
  - reflexivity.
Defined.

(** *** A file that fails *)

(** C2, as the code has it.  The [except] branch reports the failing file
    and returns: the files before it have their outputs, the files after
    it are not converted, and nothing is written for the file that failed
    to load. *)
Theorem batch_stops_at_failure (env : Env) (w : Widgets) (output_dir : string)
    (before after : list string) (bad e : string) :
  file_list w = before ++ bad :: after →
  output_dir ≠ "" → selected_sizes_of w ≠ [] →
  (∀ path, path ∈ before → ∃ img, Image_open env path = inr img) →
  (∀ p im szs f, Image_save env p im szs f = None) →
  Image_open env bad = inl e →
  saved_files (run_conversion env w output_dir) =
    expected_outputs env output_dir (radius_slider w) (selected_sizes_of w)
                     (bit_32 w) (save_separately_checkbox w) before ∧
  (save_separately_checkbox w = false →
   length (saved_files (run_conversion env w output_dir)) = length before) ∧
  message_boxes (run_conversion env w output_dir) =
    message_boxes (warning_events w) ++
    [("Conversion Error",
      "Could not convert " +:+ os_path_basename env bad +:+ "." +:+
      newline +:+ newline +:+ e,
      "critical")] ∧
  ∃ evs, run_conversion env w output_dir = evs ++ error_events env bad e.
Proof.
  intros Hlist Hdir Hsizes Hopen Hsave Hbad.
  assert (file_list w ≠ []) as Hfiles by (rewrite Hlist; by destruct before).
  destruct (convert_files_ok env output_dir (radius_slider w) (selected_sizes_of w)
              (bit_32 w) (save_separately_checkbox w) Hsave before (bad :: after) 0)
    as (evs & c' & Hrun & Hsaved & Hboxes).
  { by apply Forall_forall. }
  assert (∃ prelude, saved_files prelude = [] ∧ message_boxes prelude = [] ∧
            run_conversion env w output_dir =
              warning_events w ++ prelude ++ evs ++ error_events env bad e)
    as (prelude & Hps & Hpm & ->).
  { eexists [_; _; _; _]. split_and!; [| |
      rewrite run_conversion_past_guards by done;
      rewrite bool_decide_eq_false_2 by done;
      rewrite Hlist at 3; rewrite Hrun;
      simpl convert_files; unfold convert_file; rewrite Hbad; reflexivity]; done. }
  assert (saved_files (warning_events w) = []) as Hwarn
    by (unfold warning_events; by case_match).
  assert (saved_files (warning_events w ++ prelude ++ evs ++ error_events env bad e)
          = expected_outputs env output_dir (radius_slider w) (selected_sizes_of w)
              (bit_32 w) (save_separately_checkbox w) before) as Hfiles'.
  { rewrite !saved_files_app, Hwarn, Hps, Hsaved. simpl. by rewrite app_nil_r. }
  split_and!.
  - done.
  - intros Hcombined. rewrite Hfiles'. unfold expected_outputs. rewrite Hcombined.
    clear -Hopen. induction before as [|path before IH]; [done|].
    destruct (Hopen path) as [img Himg]; [by left|].
    rewrite bind_cons, Himg. simpl. f_equal. apply IH.
    intros p Hp. apply Hopen. by right.
  - rewrite !message_boxes_app, Hpm, Hboxes. done.
  - exists (warning_events w ++ prelude ++ evs). by rewrite <- !app_assoc.
Qed.

Lemma batch_stops_at_failure_witness :
  file_list Sample.batch_corrupt_second = ["a.png"] ++ "corrupt.png" :: ["b.png"] ∧
  Image_open Sample.env "corrupt.png" = inl "cannot identify image file" ∧
  saved_files (run_conversion Sample.env Sample.batch_corrupt_second "out") =
    [ {| ico_path := "out/a.ico"; ico_image := Sample.strip;
         ico_sizes := [(16, 16); (32, 32)]; ico_format := png |} ] ∧
  length (message_boxes (run_conversion Sample.env Sample.batch_corrupt_second "out")) = 1%nat.
Proof.
  split; [reflexivity|]. split; [reflexivity|].
  destruct (batch_stops_at_failure Sample.env Sample.batch_corrupt_second "out"
              ["a.png"] ["b.png"] "corrupt.png" "cannot identify image file")
    as (Hsaved & _ & Hboxes & _).
  - reflexivity.
  - discriminate.
  - discriminate.
  - intros path [->|[]%elem_of_nil]%elem_of_cons. eexists; reflexivity.
  - reflexivity.
  - reflexivity.
  - split; [by rewrite Hsaved | by rewrite Hboxes].
Defined.

(** C2, as it is worded, fails: of three sources with the unreadable one
    first, sizes 16 and 32 in 32-bit mode, none gets its [.ico]; the run
    ends in the error box and the two good sources are never opened. *)
Lemma batch_aborts_on_first_bad_file :
  file_list Sample.batch_corrupt_first = ["corrupt.png"; "a.png"; "b.png"] ∧
  selected_sizes_of Sample.batch_corrupt_first = [16; 32] ∧
  bit_32 Sample.batch_corrupt_first = true ∧
  run_conversion Sample.env Sample.batch_corrupt_first "out" =
    [ SetStatus "Converting..."; ProcessEvents; SetMaximum 3; SetValue 0;
      SetStatus "Error!";
      Print "Error converting corrupt.png: cannot identify image file";
      ShowMessage "Conversion Error"
        ("Could not convert corrupt.png." +:+ newline +:+ newline +:+
         "cannot identify image file")
        "critical";
      SingleShot 4000 ] ∧
  saved_files (run_conversion Sample.env Sample.batch_corrupt_first "out") = [] ∧
  length (saved_files (run_conversion Sample.env Sample.batch_corrupt_first "out")) ≠ 2%nat.
Proof. split_and!; by vm_compute. Qed.

(** *** Nothing to convert *)

(** C10, as the code has it.  With an empty list, or with no size left
    after the 8-bit guard, the run writes no file.  It tells the user why
    when the list is empty, and when a directory was chosen and no size is
    left; when the user cancels the directory dialog it returns in silence. *)
Theorem nothing_to_convert (env : Env) (w : Widgets) (output_dir : string) :
  file_list w = [] ∨ selected_sizes_of w = [] →
  saved_files (run_conversion env w output_dir) = [] ∧
  (file_list w = [] → run_conversion env w output_dir = [no_files_box]) ∧
  (file_list w ≠ [] → output_dir ≠ "" →
   run_conversion env w output_dir = warning_events w ++ [no_sizes_box]) ∧
  (file_list w ≠ [] → output_dir = "" → run_conversion env w output_dir = []).
Proof.
  intros Hnothing.
  assert (file_list w ≠ [] → output_dir ≠ "" →
          run_conversion env w output_dir = warning_events w ++ [no_sizes_box]) as Hsizes.
  { intros Hfiles Hdir. destruct Hnothing as [?|Hnone]; [done|].
    rewrite run_conversion_past_guards by done.
    by rewrite bool_decide_eq_true_2. }
  split_and!.
  - destruct (decide (file_list w = [])) as [Hfiles|Hfiles].
    { by rewrite run_conversion_no_files. }
    destruct (decide (output_dir = "")) as [->|Hdir].
    { by rewrite run_conversion_cancelled. }
    rewrite Hsizes by done. rewrite saved_files_app.
    unfold warning_events. by case_match.
  - apply run_conversion_no_files.
  - done.
  - intros Hfiles ->. by apply run_conversion_cancelled.
Qed.

Lemma nothing_to_convert_witness :
  selected_sizes_of Sample.eight_bit_only_256 = [] ∧
  saved_files (run_conversion Sample.env Sample.eight_bit_only_256 "out") = [] ∧
  run_conversion Sample.env Sample.eight_bit_only_256 "out" = [warning_256; no_sizes_box].
Proof.
  split; [reflexivity|].
  destruct (nothing_to_convert Sample.env Sample.eight_bit_only_256 "out")
    as (Hsaved & _ & Hboxes & _).
  - right. reflexivity.
  - split; [exact Hsaved|]. rewrite Hboxes; [reflexivity|discriminate|discriminate].
Defined.

(** C10, as it is worded, fails on its last words: with 256 alone ticked
    in 8-bit mode and the directory dialog cancelled, the run returns
    without having told the user anything. *)
Lemma cancelled_run_reports_nothing :
  file_list Sample.eight_bit_only_256 ≠ [] ∧
  selected_sizes_of Sample.eight_bit_only_256 = [] ∧
  run_conversion Sample.env Sample.eight_bit_only_256 "" = [] ∧
  message_boxes (run_conversion Sample.env Sample.eight_bit_only_256 "") = [].
Proof. split_and!; [discriminate|by vm_compute..]. Qed.

(** *** Radius zero *)

Lemma run_conversion_images (env : Env) (w : Widgets) (output_dir : string) :
  Forall (λ f, ∃ path img, path ∈ file_list w ∧ Image_open env path = inr img ∧
                           ico_image f = round_if_positive img (radius_slider w))
         (saved_files (run_conversion env w output_dir)).
Proof.
  destruct (decide (file_list w = [])) as [Hfiles|Hfiles].
  { by rewrite run_conversion_no_files. }
  destruct (decide (output_dir = "")) as [->|Hdir].
  { by rewrite run_conversion_cancelled. }
  rewrite run_conversion_past_guards by done.
  rewrite saved_files_app. apply Forall_app. split.
  { unfold warning_events. by case_match. }
  case_bool_decide; [done|].
  rewrite saved_files_app. apply Forall_app. split; [done|].
  apply convert_files_image.
Qed.

(** With the slider at 0 the guard [if radius > 0] in front of the call
    skips the masking: every file a conversion writes then holds the
    decoded image of one of the sources, untouched. *)
Lemma slider_at_zero_saves_decoded_images (env : Env) (w : Widgets) (output_dir : string) :
  Forall (λ f, ∃ path img,
            path ∈ file_list w ∧ Image_open env path = inr img ∧
            ico_image f = img ∧
            alpha_channel (ico_image f) = alpha_channel img)
         (saved_files (run_conversion env (set_radius 0 w) output_dir)).
Proof.
  eapply Forall_impl; [apply run_conversion_images|].
  intros f (path & img & Hpath & Hopen & Himage). simpl in *.
  exists path, img. split_and!; [done..|by rewrite Himage].
Qed.

Lemma zip_opaque_row (row : list Pixel) (k : nat) :
  Forall (λ p, alpha p = 255) row → length row = k →
  zip_with set_alpha row (replicate k 255) = row.
Proof.
  intros Hrow. revert k. induction Hrow as [|p row Hp _ IH]; intros k Hlen;
    simplify_eq/=; [done|].
  f_equal; [|by apply IH]. destruct p; simpl in *. by subst.
Qed.

Lemma zip_opaque_rows (l : list (list Pixel)) (n k : nat) :
  Forall (Forall (λ p, alpha p = 255)) l →
  Forall (λ row, length row = k) l → length l = n →
  zip_with (zip_with set_alpha) l (replicate n (replicate k 255)) = l.
Proof.
  intros Hl. revert n. induction Hl as [|row l Hrow _ IH]; intros n Hk Hn;
    simplify_eq/=; [done|].
  apply Forall_cons in Hk as [Hrowk Hk].
  f_equal; [by apply zip_opaque_row | by apply IH].
Qed.

Lemma opaque_of_alpha_channel (l : list (list Pixel)) (n k : nat) :
  fmap (M := list) alpha <$> l = replicate n (replicate k 255) →
  Forall (Forall (λ p, alpha p = 255)) l.
Proof.
  intros Hl. apply Forall_lookup_2. intros y row Hy.
  apply Forall_lookup_2. intros x p Hx.
  assert ((fmap (M := list) alpha <$> l) !! y = Some (alpha <$> row)) as Hrow
    by (by rewrite list_lookup_fmap, Hy).
  rewrite Hl in Hrow. apply lookup_replicate in Hrow as [Hrow _].
  assert ((alpha <$> row) !! x = Some (alpha p)) as Hp
    by (by rewrite list_lookup_fmap, Hx).
  rewrite Hrow in Hp. by apply lookup_replicate in Hp as [-> _].
Qed.

(** C4, as the code has it.  A radius of 0 is a no-op only through the
    guard [if radius > 0] that both callers put in front of the call: the
    image then goes on as it was decoded.  The function itself, called with
    radius 0, keeps the colours and the size and makes every pixel opaque
    (alpha 255): it returns its argument unchanged exactly when the
    argument is opaque everywhere. *)
Theorem radius_zero_makes_opaque (image : RasterImage) :
  well_formed image →
  round_if_positive image 0 = image ∧
  alpha_channel (rounded_corners image 0) =
    replicate (Z.to_nat (height image)) (replicate (Z.to_nat (width image)) 255) ∧
  color_channels (rounded_corners image 0) = color_channels image ∧
  size (rounded_corners image 0) = size image ∧
  (rounded_corners image 0 = image ↔
   Forall (Forall (λ p, alpha p = 255)) (rows image)).
Proof.
  intros Hwf.
  assert (alpha_channel (rounded_corners image 0) =
          replicate (Z.to_nat (height image)) (replicate (Z.to_nat (width image)) 255))
    as Halpha.
  { rewrite rounded_corners_alpha by done. apply rounded_mask_zero_is_white. }
  pose proof (rounded_mask_same_shape image 0 Hwf) as Hshape.
  split_and!; [done|done| |done|].
  - by apply (putalpha_colors (copy image)).
  - split.
    + intros Hsame. rewrite Hsame in Halpha. by eapply opaque_of_alpha_channel.
    + intros Hopaque. destruct Hwf as [Hlen Hrows].
      unfold rounded_corners, putalpha, copy. rewrite rounded_mask_zero_is_white.
      destruct image as [w h l]; simpl in *. f_equal.
      by apply zip_opaque_rows.
Qed.

Lemma radius_zero_makes_opaque_witness :
  well_formed Sample.strip ∧
  alpha_channel Sample.strip = replicate 2 (replicate 8 77) ∧
  round_if_positive Sample.strip 0 = Sample.strip ∧
  alpha_channel (rounded_corners Sample.strip 0) = replicate 2 (replicate 8 255) ∧
  color_channels (rounded_corners Sample.strip 0) = color_channels Sample.strip.
Proof.
  split; [exact Sample_strip_well_formed|]. split; [reflexivity|].
  destruct (radius_zero_makes_opaque Sample.strip Sample_strip_well_formed)
    as (Hguard & Halpha & Hcolors & _).
  split; [exact Hguard|]. split; [exact Halpha|exact Hcolors].
Defined.

(** C4, as it is worded, fails for the function: called with radius 0 on
    the 8 by 2 strip, whose alpha is 77 everywhere, it returns an image
    whose alpha is 255 everywhere; on a single transparent pixel likewise. *)
Lemma radius_zero_changes_alpha :
  well_formed Sample.strip ∧
  alpha_channel Sample.strip = replicate 2 (replicate 8 77) ∧
  alpha_channel (rounded_corners Sample.strip 0) = replicate 2 (replicate 8 255) ∧
  alpha_channel (rounded_corners Sample.strip 0) ≠ alpha_channel Sample.strip ∧
  rounded_corners Sample.strip 0 ≠ Sample.strip ∧
  alpha_channel (rounded_corners Sample.dot 0) ≠ alpha_channel Sample.dot.
Proof.
  split; [exact Sample_strip_well_formed|].
  split_and!; [reflexivity|reflexivity|by vm_compute..].
Qed.

(** * Further properties *)

(** ** More on the file list *)

Section file_list_more.
Context (env : Env).

Lemma add_files_to_list_keeps (items file_paths : list string) (path : string) :
  path ∈ items → path ∈ (add_files_to_list env items file_paths).1.
Proof.
  intros Hin.
  destruct (add_files_to_list_appends env items file_paths) as (added & -> & _).
  apply elem_of_app. by left.
Qed.

Lemma add_files_to_list_present (items rest : list string) (path : string) :
  path ∈ items →
  add_files_to_list env items (path :: rest) =
  match os_path_getsize env path with
  | None => (items, true)
  | Some _ => add_files_to_list env items rest
  end.
Proof.
  intros Hin. simpl. destruct (os_path_getsize env path) as [n|]; [|done].
  destruct (MAX_FILE_SIZE_BYTES <? n); [done|].
  by rewrite bool_decide_eq_false_2 by (by intros ?).
Qed.

(** X1. Without a missing file, a call puts in the list exactly the given
    paths that are small enough, beside what was there. *)
Theorem add_files_to_list_membership (items file_paths : list string) :
  (∀ path, path ∈ file_paths → is_Some (os_path_getsize env path)) →
  (add_files_to_list env items file_paths).2 = false ∧
  ∀ path, path ∈ (add_files_to_list env items file_paths).1 ↔
          path ∈ items ∨ (path ∈ file_paths ∧ small_enough env path).
Proof.
  revert items. induction file_paths as [|p rest IH]; intros items Hsome; simpl.
  { split; [done|]. intros path. split; [by left|].
    intros [?|[[]%elem_of_nil _]]; done. }
  destruct (Hsome p) as [n Hn]; [by left|]. rewrite Hn.
  assert (∀ path, path ∈ rest → is_Some (os_path_getsize env path)) as Hrest.
  { intros path Hpath. apply Hsome. by right. }
  destruct (Z.ltb_spec MAX_FILE_SIZE_BYTES n) as [Hbig|Hsmall].
  { destruct (IH items Hrest) as [Hflag Hmem]. split; [done|].
    intros path. rewrite Hmem. split.
    - intros [?|[? ?]]; [by left|]. right. split; [by right|done].
    - intros [?|[[->|?]%elem_of_cons Hs]]; [by left| |by right].
      destruct Hs as (n' & Hn' & ?). simplify_eq. lia. }
  case_bool_decide as Hnew.
  - destruct (IH (items ++ [p]) Hrest) as [Hflag Hmem]. split; [done|].
    intros path. rewrite Hmem, elem_of_app, list_elem_of_singleton. split.
    + intros [[? | ->] | [? ?]]; [by left| |].
      * right. split; [by left|]. by exists n.
      * right. split; [by right|done].
    + intros [?|[[->|?]%elem_of_cons Hs]]; [by left; left|by left; right|by right].
  - destruct (IH items Hrest) as [Hflag Hmem]. split; [done|].
    intros path. rewrite Hmem. split.
    + intros [?|[? ?]]; [by left|]. right. split; [by right|done].
    + intros [?|[[->|?]%elem_of_cons Hs]]; [by left|by left|by right].
Qed.

(** X2. Giving the same paths a second time changes nothing. *)
Theorem add_files_to_list_twice (items file_paths : list string) :
  add_files_to_list env (add_files_to_list env items file_paths).1 file_paths =
  add_files_to_list env items file_paths.
Proof.
  revert items. induction file_paths as [|p rest IH]; intros items; [done|].
  destruct (os_path_getsize env p) as [n|] eqn:Hn.
  2:{ simpl. rewrite Hn. simpl. by rewrite ?Hn. }
  assert (∀ l, add_files_to_list env l (p :: rest) =
               if MAX_FILE_SIZE_BYTES <? n then add_files_to_list env l rest
               else if bool_decide (p ∉ l)
                    then add_files_to_list env (l ++ [p]) rest
                    else add_files_to_list env l rest) as Hstep.
  { intros l. simpl. by rewrite Hn. }
  rewrite (Hstep items).
  destruct (MAX_FILE_SIZE_BYTES <? n) eqn:Hbig.
  { rewrite Hstep, ?Hbig. apply IH. }
  case_bool_decide as Hnew.
  - rewrite add_files_to_list_present, Hn; [apply IH|].
    apply add_files_to_list_keeps, elem_of_app. right. by left.
  - rewrite add_files_to_list_present, Hn; [apply IH|].
    by apply add_files_to_list_keeps.
Qed.

(** X3. A path whose size cannot be read stops the call: the paths before it
    are dealt with, those after it are not looked at. *)
Theorem add_files_to_list_stops (items before after : list string) (bad : string) :
  os_path_getsize env bad = None →
  (add_files_to_list env items before).2 = false →
  add_files_to_list env items (before ++ bad :: after) =
  ((add_files_to_list env items before).1, true).
Proof.
  intros Hbad. revert items. induction before as [|p rest IH]; intros items Hflag; simpl in *.
  { by rewrite Hbad. }
  destruct (os_path_getsize env p) as [n|]; [|done].
  destruct (MAX_FILE_SIZE_BYTES <? n); [by apply IH|].
  case_bool_decide; by apply IH.
Qed.
End file_list_more.

Lemma add_files_to_list_membership_witness :
  (add_files_to_list Sample.env ["x.png"] ["a.png"; "huge.png"; "a.png"]).2 = false ∧
  ("a.png" ∈ (add_files_to_list Sample.env ["x.png"] ["a.png"; "huge.png"; "a.png"]).1 ↔
   "a.png" ∈ ["x.png"] ∨
   ("a.png" ∈ ["a.png"; "huge.png"; "a.png"] ∧ small_enough Sample.env "a.png")).
Proof.
  destruct (add_files_to_list_membership Sample.env ["x.png"]
              ["a.png"; "huge.png"; "a.png"]) as [Hflag Hmem].
  - intros path [->|[->|[->|[]%elem_of_nil]%elem_of_cons]%elem_of_cons]%elem_of_cons;
      eexists; reflexivity.
  - split; [exact Hflag | apply Hmem].
Defined.

Lemma add_files_to_list_stops_witness :
  os_path_getsize Sample.env "missing.png" = None ∧
  add_files_to_list Sample.env [] (["a.png"] ++ "missing.png" :: ["b.png"]) =
  (["a.png"], true).
Proof.
  split; [reflexivity|].
  rewrite (add_files_to_list_stops Sample.env [] ["a.png"] ["b.png"] "missing.png");
    reflexivity.
Defined.

(** ** More on the batch conversion *)

Lemma progress_between_weaken (lo hi lo' hi' : Z) (evs : list Event) :
  lo' ≤ lo → hi ≤ hi' →
  Forall (progress_between lo hi) evs → Forall (progress_between lo' hi') evs.
Proof.
  intros Hlo Hhi Hevs. eapply Forall_impl; [exact Hevs|].
  intros [] ?; simpl in *; try done. lia.
Qed.

Section loop_more.
Context (env : Env) (output_dir : string) (radius : Z)
        (selected_sizes : list Z) (use_32bit save_separately : bool).

Local Abbreviation each_size :=
  (save_each_size env output_dir use_32bit).
Local Abbreviation one_file :=
  (convert_file env output_dir radius selected_sizes use_32bit save_separately).
Local Abbreviation all_files :=
  (convert_files env output_dir radius selected_sizes use_32bit save_separately).

(** The files one source gets: as many as there are sizes, or one. *)
Local Abbreviation per_source :=
  (if save_separately then Z.of_nat (length selected_sizes) else 1).

(** The counter goes up by one with each file written, and the progress
    bar is set to it. *)
Lemma save_each_size_count img base_name sizes c :
  Forall (progress_between c (c + Z.of_nat (length sizes)))
         (each_size img base_name sizes c).1 ∧
  ∀ c', (each_size img base_name sizes c).2 = inr c' →
        c' = c + Z.of_nat (length sizes) ∧
        c' = c + Z.of_nat (length (saved_files (each_size img base_name sizes c).1)).
Proof.
  revert c. induction sizes as [|size rest IH]; intros c.
  { simpl. split; [done|]. intros c' [= <-]. lia. }
  cbn [save_each_size length]. unfold save.
  destruct (Image_save env _ _ _ _) as [e|]; simpl; [done|].
  destruct (IH (c + 1)) as [Hrange Hcount].
  destruct (each_size img base_name rest (c + 1)) as [evs r]; simpl in *.
  split.
  - constructor; [done|]. constructor; [simpl; lia|].
    eapply progress_between_weaken; [| |exact Hrange]; lia.
  - intros c' ->. destruct (Hcount c' eq_refl) as [? ?]. lia.
Qed.

Lemma convert_file_count path base_name c :
  Forall (progress_between c (c + per_source)) (one_file path base_name c).1 ∧
  ∀ c', (one_file path base_name c).2 = inr c' →
        c' = c + per_source ∧
        c' = c + Z.of_nat (length (saved_files (one_file path base_name c).1)).
Proof.
  unfold convert_file. destruct (Image_open env path) as [e|img]; [done|].
  destruct save_separately; [apply save_each_size_count|].
  unfold save. destruct (Image_save env _ _ _ _) as [e|]; simpl; [done|].
  split.
  - repeat constructor; simpl; lia.
  - intros c' [= <-]. lia.
Qed.

Lemma per_source_nonneg : 0 ≤ per_source.
Proof. destruct save_separately; lia. Qed.

Lemma convert_files_progress paths c :
  Forall (progress_between c (c + Z.of_nat (length paths) * per_source))
         (all_files paths c).
Proof.
  pose proof per_source_nonneg as Hper.
  revert c. induction paths as [|path rest IH]; intros c.
  { by repeat constructor. }
  cbn [convert_files length].
  set (base_name := (os_path_splitext env (os_path_basename env path)).1).
  destruct (convert_file_count path base_name c) as [Hrange Hcount].
  destruct (one_file path base_name c) as [evs [e|c']]; simpl in *;
    apply Forall_app; split.
  - eapply progress_between_weaken; [| |exact Hrange]; nia.
  - by repeat constructor.
  - eapply progress_between_weaken; [| |exact Hrange]; nia.
  - destruct (Hcount c' eq_refl) as [-> _].
    eapply progress_between_weaken; [| |apply IH]; nia.
Qed.

(** The loop ends in one of two ways: with the success line, whose count
    is the number of files written, or with the report of the error of
    one of the paths. *)
Lemma convert_files_ending paths c :
  (∃ evs, all_files paths c =
            evs ++ success_events (c + Z.of_nat (length (saved_files evs))) ∧
          message_boxes evs = []) ∨
  (∃ evs path e, path ∈ paths ∧
          all_files paths c = evs ++ error_events env path e ∧
          message_boxes evs = []).
Proof.
  revert c. induction paths as [|path rest IH]; intros c.
  { left. exists []. split; [|done]. simpl. unfold success_events.
    by rewrite Z.add_0_r. }
  cbn [convert_files].
  set (base_name := (os_path_splitext env (os_path_basename env path)).1).
  destruct (convert_file_count path base_name c) as [_ Hcount].
  destruct (convert_file_written env output_dir radius selected_sizes use_32bit
              save_separately path base_name c) as [_ Hboxes].
  destruct (one_file path base_name c) as [evs [e|c']]; simpl in *.
  { right. exists evs, path, e. split_and!; [by left|done..]. }
  destruct (Hcount c' eq_refl) as [_ Hc'].
  destruct (IH c') as [(evs' & -> & Hboxes')|(evs' & p & e & Hp & -> & Hboxes')].
  - left. exists (evs ++ evs'). split_and!.
    + rewrite <- app_assoc. do 3 f_equal. rewrite saved_files_app, length_app. lia.
    + by rewrite message_boxes_app, Hboxes, Hboxes'.
  - right. exists (evs ++ evs'), p, e. split_and!.
    + by right.
    + by rewrite app_assoc.
    + by rewrite message_boxes_app, Hboxes, Hboxes'.
Qed.

(** Whatever the loop has written is the output of one of the paths, in
    the directory, with the name and the entries of its grouping. *)
Lemma save_each_size_outputs img path sizes c :
  Forall (output_of env output_dir sizes true [path])
         (saved_files
            (each_size img (os_path_splitext env (os_path_basename env path)).1
                            sizes c).1).
Proof.
  revert c. induction sizes as [|size rest IH]; intros c; simpl; [done|].
  unfold save. destruct (Image_save env _ _ _ _) as [e|]; simpl; [done|].
  specialize (IH (c + 1)).
  destruct (each_size img _ rest (c + 1)) as [evs r]; simpl in *.
  constructor.
  - exists path. split; [by left|]. exists size. split_and!; [by left|done..].
  - eapply Forall_impl; [exact IH|]. intros f (p & Hp & s & Hs & ? & ?).
    exists p. split; [done|]. exists s. split_and!; [by right|done..].
Qed.

Lemma convert_files_outputs paths c :
  Forall (output_of env output_dir selected_sizes save_separately paths)
         (saved_files (all_files paths c)).
Proof.
  revert c. induction paths as [|path rest IH]; intros c; [done|].
  cbn [convert_files].
  assert (Forall (output_of env output_dir selected_sizes save_separately [path])
            (saved_files
               (one_file path (os_path_splitext env (os_path_basename env path)).1
                             c).1)) as Hfile.
  { unfold convert_file. destruct (Image_open env path) as [e|img]; [done|].
    destruct save_separately; [apply save_each_size_outputs|].
    unfold save. destruct (Image_save env _ _ _ _) as [e|]; simpl; [done|].
    constructor; [|done]. exists path. split; [by left|done]. }
  assert (∀ f, output_of env output_dir selected_sizes save_separately [path] f →
               output_of env output_dir selected_sizes save_separately (path :: rest) f)
    as Hhead.
  { intros f (p & ->%list_elem_of_singleton & ?). exists path. split; [by left|done]. }
  assert (∀ f, output_of env output_dir selected_sizes save_separately rest f →
               output_of env output_dir selected_sizes save_separately (path :: rest) f)
    as Htail.
  { intros f (p & ? & ?). exists p. split; [by right|done]. }
  destruct (one_file path _ c) as [evs [e|c']]; simpl in *;
    rewrite saved_files_app; apply Forall_app; split.
  - by eapply Forall_impl.
  - done.
  - by eapply Forall_impl.
  - eapply Forall_impl; [apply IH|done].
Qed.
End loop_more.

(** *** How a run ends *)

Lemma saved_files_warning (w : Widgets) : saved_files (warning_events w) = [].
Proof. unfold warning_events. by case_match. Qed.

(** The run when it gets to the loop. *)
Lemma run_conversion_loop (env : Env) (w : Widgets) (output_dir : string) :
  file_list w ≠ [] → output_dir ≠ "" → selected_sizes_of w ≠ [] →
  run_conversion env w output_dir =
  warning_events w ++
  [SetStatus "Converting..."; ProcessEvents; SetMaximum (progress_maximum w); SetValue 0] ++
  convert_files env output_dir (radius_slider w) (selected_sizes_of w)
                (bit_32 w) (save_separately_checkbox w) (file_list w) 0.
Proof.
  intros Hfiles Hdir Hsizes. rewrite run_conversion_past_guards by done.
  by rewrite bool_decide_eq_false_2.
Qed.

(** X4. A run that gets to the loop ends either with the success line, which
    counts exactly the files written, and no further box, or with the
    report of the failure of one listed file, in one critical box. *)
Theorem run_conversion_ending (env : Env) (w : Widgets) (output_dir : string) :
  file_list w ≠ [] → output_dir ≠ "" → selected_sizes_of w ≠ [] →
  (∃ evs,
      run_conversion env w output_dir =
        evs ++ success_events
                 (Z.of_nat (length (saved_files (run_conversion env w output_dir)))) ∧
      message_boxes (run_conversion env w output_dir) =
        message_boxes (warning_events w)) ∨
  (∃ evs path e,
      path ∈ file_list w ∧
      run_conversion env w output_dir = evs ++ error_events env path e ∧
      message_boxes (run_conversion env w output_dir) =
        message_boxes (warning_events w) ++ [error_box env path e]).
Proof.
  intros Hfiles Hdir Hsizes. rewrite run_conversion_loop by done.
  set (prelude := [SetStatus "Converting..."; _; _; _]).
  assert (saved_files prelude = [] ∧ message_boxes prelude = []) as [Hps Hpm] by done.
  clearbody prelude.
  destruct (convert_files_ending env output_dir (radius_slider w) (selected_sizes_of w)
              (bit_32 w) (save_separately_checkbox w) (file_list w) 0)
    as [(evs & -> & Hboxes)|(evs & path & e & Hpath & -> & Hboxes)].
  - left. exists (warning_events w ++ prelude ++ evs). split.
    + rewrite !saved_files_app, saved_files_warning, Hps. simpl.
      rewrite app_nil_r, <- !app_assoc. by rewrite Z.add_0_l.
    + rewrite !message_boxes_app, Hpm, Hboxes. simpl. by rewrite app_nil_r.
  - right. exists (warning_events w ++ prelude ++ evs), path, e. split_and!.
    + done.
    + by rewrite <- !app_assoc.
    + rewrite !message_boxes_app, Hpm, Hboxes. done.
Qed.

Lemma run_conversion_ending_witness :
  file_list Sample.batch_corrupt_second ≠ [] ∧
  "out" ≠ "" ∧
  selected_sizes_of Sample.batch_corrupt_second ≠ [] ∧
  ((∃ evs,
      run_conversion Sample.env Sample.batch_corrupt_second "out" =
        evs ++ success_events
                 (Z.of_nat (length (saved_files
                    (run_conversion Sample.env Sample.batch_corrupt_second "out")))) ∧
      message_boxes (run_conversion Sample.env Sample.batch_corrupt_second "out") =
        message_boxes (warning_events Sample.batch_corrupt_second)) ∨
   (∃ evs path e,
      path ∈ file_list Sample.batch_corrupt_second ∧
      run_conversion Sample.env Sample.batch_corrupt_second "out" =
        evs ++ error_events Sample.env path e ∧
      message_boxes (run_conversion Sample.env Sample.batch_corrupt_second "out") =
        message_boxes (warning_events Sample.batch_corrupt_second) ++
        [error_box Sample.env path e])).
Proof.
  split; [discriminate|]. split; [discriminate|]. split; [discriminate|].
  apply (run_conversion_ending Sample.env Sample.batch_corrupt_second "out");
    discriminate.
Defined.

(** *** The progress bar *)

Lemma progress_in_range_loop (lo hi maximum : Z) (evs : list Event) :
  0 ≤ lo → hi ≤ maximum →
  Forall (progress_between lo hi) evs → progress_in_range maximum evs.
Proof.
  intros Hlo Hhi. induction 1 as [|ev evs Hev _ IH]; [done|].
  destruct ev; simpl in *; try done. split; [lia|done].
Qed.

(** X5. In every run, each value given to the progress bar lies between 0 and
    the maximum the bar has when it is given. *)
Theorem progress_stays_in_range (env : Env) (w : Widgets) (output_dir : string)
    (maximum : Z) :
  progress_in_range maximum (run_conversion env w output_dir).
Proof.
  destruct (decide (file_list w = [])) as [Hfiles|Hfiles].
  { by rewrite run_conversion_no_files. }
  destruct (decide (output_dir = "")) as [->|Hdir].
  { by rewrite run_conversion_cancelled. }
  destruct (decide (selected_sizes_of w = [])) as [Hsizes|Hsizes].
  { rewrite run_conversion_past_guards, bool_decide_eq_true_2 by done.
    unfold warning_events. by case_match. }
  rewrite run_conversion_loop by done.
  assert (progress_in_range (progress_maximum w)
            (convert_files env output_dir (radius_slider w) (selected_sizes_of w)
               (bit_32 w) (save_separately_checkbox w) (file_list w) 0)) as Hloop.
  { eapply progress_in_range_loop; [| |apply convert_files_progress]; [done|].
    unfold progress_maximum. destruct (save_separately_checkbox w); lia. }
  assert (0 ≤ progress_maximum w) as Hmax.
  { unfold progress_maximum. destruct (save_separately_checkbox w); lia. }
  unfold warning_events. case_match; simpl; (split; [lia|done]).
Qed.

(** *** What a run writes, whether it fails or not *)

Lemma selected_sizes_sublist (w : Widgets) : selected_sizes_of w `sublist_of` ICON_SIZES.
Proof.
  assert (∀ l, list_remove 256 l `sublist_of` l) as Hremove.
  { induction l as [|y l IH]; simpl; [done|].
    case_decide; [by apply sublist_cons|by apply sublist_skip]. }
  assert (checked_sizes w `sublist_of` ICON_SIZES) as Hchecked
    by apply sublist_filter.
  unfold selected_sizes_of. case_match; [|done].
  etrans; [apply Hremove|done].
Qed.

(** X6. Whatever a run has written, even one that failed on the way, is the
    finished output of a listed source: in the chosen directory, under the
    name of the source (and the size, in separate mode), with the entries
    of its grouping. *)
Theorem run_conversion_outputs (env : Env) (w : Widgets) (output_dir : string) :
  Forall (output_of env output_dir (selected_sizes_of w)
                    (save_separately_checkbox w) (file_list w))
         (saved_files (run_conversion env w output_dir)).
Proof.
  destruct (decide (file_list w = [])) as [Hfiles|Hfiles].
  { by rewrite run_conversion_no_files. }
  destruct (decide (output_dir = "")) as [->|Hdir].
  { by rewrite run_conversion_cancelled. }
  rewrite run_conversion_past_guards by done.
  rewrite saved_files_app, saved_files_warning. simpl.
  case_bool_decide; [done|].
  apply convert_files_outputs.
Qed.

Lemma singleton_sublist {A} (x : A) (l : list A) : x ∈ l → [x] `sublist_of` l.
Proof.
  induction 1 as [x l|x y l _ IH].
  - apply sublist_skip, sublist_nil_l.
  - by apply sublist_cons.
Qed.

(** X7. The [sizes] argument of every [save] call a run makes is a list
    of squares whose sizes are, in this order and without repetition, some
    of 16, 32, 48, 64, 128 and 256, and at least one.  (What Pillow then
    puts in the file is its own business.) *)
Theorem save_sizes_among_icon_sizes (env : Env) (w : Widgets) (output_dir : string) :
  Forall (λ f, ico_sizes f ≠ [] ∧
               ∃ sizes, ico_sizes f = (λ s, (s, s)) <$> sizes ∧
                        sizes `sublist_of` ICON_SIZES)
         (saved_files (run_conversion env w output_dir)).
Proof.
  destruct (decide (file_list w = [])) as [Hfiles|Hfiles].
  { by rewrite run_conversion_no_files. }
  destruct (decide (output_dir = "")) as [->|Hdir].
  { by rewrite run_conversion_cancelled. }
  rewrite run_conversion_past_guards by done.
  rewrite saved_files_app, saved_files_warning. simpl.
  case_bool_decide as Hsizes; [done|].
  pose proof (selected_sizes_sublist w) as Hsub.
  eapply Forall_impl; [apply convert_files_outputs|].
  intros f (path & _ & Hf). destruct (save_separately_checkbox w).
  - destruct Hf as (size & Hsize & _ & ->). split; [done|].
    exists [size]. split; [done|]. etrans; [|exact Hsub]. by apply singleton_sublist.
  - destruct Hf as [_ ->]. split.
    + by destruct (selected_sizes_of w).
    + by exists (selected_sizes_of w).
Qed.

(** *** A save that fails in separate mode *)

Lemma save_each_size_fails (env : Env) (output_dir : string) (use_32bit : bool)
    (img : RasterImage) (path : string) (before after : list Z) (size c : Z) (e : string) :
  (∀ s, s ∈ before →
        Image_save env (separate_path env output_dir path s) img [(s, s)]
                   (bitmap_format use_32bit) = None) →
  Image_save env (separate_path env output_dir path size) img [(size, size)]
             (bitmap_format use_32bit) = Some e →
  ∃ evs,
    save_each_size env output_dir use_32bit img
      (os_path_splitext env (os_path_basename env path)).1
      (before ++ size :: after) c = (evs, inl e) ∧
    saved_files evs =
      (λ s, {| ico_path := separate_path env output_dir path s;
               ico_image := img;
               ico_sizes := [(s, s)];
               ico_format := bitmap_format use_32bit |}) <$> before.
Proof.
  intros Hbefore Hsize. revert c.
  induction before as [|s before IH]; intros c; simpl.
  { unfold save. fold (separate_path env output_dir path size). rewrite Hsize.
    by exists []. }
  unfold save at 1. fold (separate_path env output_dir path s).
  rewrite Hbefore by (by left). simpl.
  assert (∀ s', s' ∈ before →
            Image_save env (separate_path env output_dir path s') img [(s', s')]
                       (bitmap_format use_32bit) = None) as Hrest.
  { intros s' Hs'. apply Hbefore. by right. }
  destruct (IH Hrest (c + 1)) as (evs & -> & Hevs).
  eexists. split; [done|]. simpl. by rewrite Hevs.
Qed.

(** X8. In separate mode, when the save of one size fails for the first
    source, the run stops with the error report, and the files of the
    sizes before it stay written. *)
Theorem separate_mode_keeps_earlier_files (env : Env) (w : Widgets) (output_dir : string)
    (path : string) (rest : list string) (img : RasterImage)
    (before after : list Z) (size : Z) (e : string) :
  file_list w = path :: rest → output_dir ≠ "" →
  save_separately_checkbox w = true →
  selected_sizes_of w = before ++ size :: after →
  Image_open env path = inr img →
  (∀ s, s ∈ before →
        Image_save env (separate_path env output_dir path s)
                   (round_if_positive img (radius_slider w)) [(s, s)]
                   (bitmap_format (bit_32 w)) = None) →
  Image_save env (separate_path env output_dir path size)
             (round_if_positive img (radius_slider w)) [(size, size)]
             (bitmap_format (bit_32 w)) = Some e →
  saved_files (run_conversion env w output_dir) =
    (λ s, {| ico_path := separate_path env output_dir path s;
             ico_image := round_if_positive img (radius_slider w);
             ico_sizes := [(s, s)];
             ico_format := bitmap_format (bit_32 w) |}) <$> before ∧
  ∃ evs, run_conversion env w output_dir = evs ++ error_events env path e.
Proof.
  intros Hlist Hdir Hsep Hsizes Hopen Hbefore Hsize.
  rewrite run_conversion_loop; [|by rewrite Hlist|done|by rewrite Hsizes; destruct before].
  rewrite Hlist, Hsep. cbn [convert_files]. unfold convert_file. rewrite Hopen, Hsizes.
  destruct (save_each_size_fails env output_dir (bit_32 w)
              (round_if_positive img (radius_slider w)) path before after size 0 e
              Hbefore Hsize) as (evs & -> & Hevs).
  split.
  - rewrite saved_files_app, saved_files_warning. simpl.
    by rewrite saved_files_app, Hevs, app_nil_r.
  - eexists (warning_events w ++ [_; _; _; _] ++ evs). by rewrite <- !app_assoc.
Qed.

Lemma separate_mode_keeps_earlier_files_witness :
  selected_sizes_of Sample.three_sizes_separate = [16] ++ 32 :: [48] ∧
  saved_files (run_conversion Sample.env_no_32 Sample.three_sizes_separate "out") =
    [ {| ico_path := "out/a_16.ico"; ico_image := Sample.strip;
         ico_sizes := [(16, 16)]; ico_format := png |} ] ∧
  ∃ evs, run_conversion Sample.env_no_32 Sample.three_sizes_separate "out" =
         evs ++ error_events Sample.env_no_32 "a.png" "encoder error".
Proof.
  split; [reflexivity|].
  apply (separate_mode_keeps_earlier_files Sample.env_no_32 Sample.three_sizes_separate
           "out" "a.png" [] Sample.strip [16] [48] 32 "encoder error").
  - reflexivity.
  - discriminate.
  - reflexivity.
  - reflexivity.
  - reflexivity.
  - intros s ->%list_elem_of_singleton. reflexivity.
  - reflexivity.
Defined.

(** *** The totals of a run without failure *)

Section totals.
Context (env : Env) (output_dir : string) (radius : Z)
        (selected_sizes : list Z) (use_32bit save_separately : bool).
Context (Hsave : ∀ p im szs f, Image_save env p im szs f = None).

Local Abbreviation per_source :=
  (if save_separately then Z.of_nat (length selected_sizes) else 1).

Lemma convert_file_succeeds path base_name c img :
  Image_open env path = inr img →
  ∃ evs c',
    convert_file env output_dir radius selected_sizes use_32bit save_separately
                 path base_name c = (evs, inr c').
Proof.
  intros Hopen. unfold convert_file. rewrite Hopen. destruct save_separately.
  - destruct (save_each_size_ok env output_dir use_32bit Hsave
                (round_if_positive img radius) base_name selected_sizes c)
      as (evs & -> & _). eauto.
  - unfold save. rewrite Hsave. simpl. eauto.
Qed.

Lemma convert_files_totals paths c :
  Forall (λ path, ∃ img, Image_open env path = inr img) paths →
  ∃ evs,
    convert_files env output_dir radius selected_sizes use_32bit save_separately paths c =
      evs ++ success_events (c + Z.of_nat (length paths) * per_source) ∧
    Z.of_nat (length (saved_files evs)) = Z.of_nat (length paths) * per_source ∧
    message_boxes evs = [].
Proof.
  intros Hall. revert c. induction Hall as [|path paths [img Hopen] _ IH]; intros c.
  { exists []. split_and!; [|done..]. simpl. unfold success_events.
    by rewrite Z.mul_0_l, Z.add_0_r. }
  cbn [convert_files length].
  set (base_name := (os_path_splitext env (os_path_basename env path)).1).
  destruct (convert_file_succeeds path base_name c img Hopen) as (evs & c' & Hfile).
  pose proof (convert_file_count env output_dir radius selected_sizes use_32bit
                save_separately path base_name c) as [_ Hcount].
  pose proof (convert_file_written env output_dir radius selected_sizes use_32bit
                save_separately path base_name c) as [_ Hboxes].
  rewrite Hfile in *. simpl in *.
  destruct (Hcount c' eq_refl) as [Hc' Hlen].
  destruct (IH c') as (evs' & -> & Hlen' & Hboxes').
  exists (evs ++ evs'). split_and!.
  - rewrite <- app_assoc. do 3 f_equal. lia.
  - rewrite saved_files_app, length_app. lia.
  - by rewrite message_boxes_app, Hboxes, Hboxes'.
Qed.
End totals.

(** X9. When every source decodes and every save succeeds, the run ends with
    the success line, and the count it shows is the number of files
    written and the maximum of the progress bar: sources times sizes in
    separate mode, sources in combined mode. *)
Theorem run_conversion_totals (env : Env) (w : Widgets) (output_dir : string) :
  file_list w ≠ [] → output_dir ≠ "" → selected_sizes_of w ≠ [] →
  (∀ path, path ∈ file_list w → ∃ img, Image_open env path = inr img) →
  (∀ p im szs f, Image_save env p im szs f = None) →
  (∃ evs, run_conversion env w output_dir =
            evs ++ success_events (progress_maximum w)) ∧
  Z.of_nat (length (saved_files (run_conversion env w output_dir))) =
    progress_maximum w ∧
  progress_maximum w =
    (if save_separately_checkbox w
     then Z.of_nat (length (file_list w)) * Z.of_nat (length (selected_sizes_of w))
     else Z.of_nat (length (file_list w))) ∧
  message_boxes (run_conversion env w output_dir) = message_boxes (warning_events w).
Proof.
  intros Hfiles Hdir Hsizes Hopen Hsave. rewrite run_conversion_loop by done.
  destruct (convert_files_totals env output_dir (radius_slider w) (selected_sizes_of w)
              (bit_32 w) (save_separately_checkbox w) Hsave (file_list w) 0)
    as (evs & -> & Hlen & Hboxes).
  { by apply Forall_forall. }
  assert (Z.of_nat (length (file_list w)) *
            (if save_separately_checkbox w
             then Z.of_nat (length (selected_sizes_of w)) else 1) =
          progress_maximum w) as Hmax.
  { unfold progress_maximum. destruct (save_separately_checkbox w); lia. }
  rewrite Z.add_0_l, Hmax in *. split_and!.
  - eexists (warning_events w ++ [_; _; _; _] ++ evs). by rewrite <- !app_assoc.
  - rewrite saved_files_app, saved_files_warning. simpl.
    rewrite saved_files_app, length_app. simpl. lia.
  - done.
  - rewrite message_boxes_app. simpl. rewrite message_boxes_app, Hboxes. simpl.
    by rewrite app_nil_r.
Qed.

Lemma run_conversion_totals_witness :
  file_list Sample.batch_separate ≠ [] ∧
  selected_sizes_of Sample.batch_separate ≠ [] ∧
  progress_maximum Sample.batch_separate = 4 ∧
  Z.of_nat (length (saved_files (run_conversion Sample.env Sample.batch_separate "out"))) =
    progress_maximum Sample.batch_separate.
Proof.
  split; [discriminate|]. split; [discriminate|]. split; [reflexivity|].
  destruct (run_conversion_totals Sample.env Sample.batch_separate "out")
    as (_ & Hlen & _).
  - discriminate.
  - discriminate.
  - discriminate.
  - intros path [->|[->|[]%elem_of_nil]%elem_of_cons]%elem_of_cons;
      eexists; reflexivity.
  - reflexivity.
  - exact Hlen.
Defined.

(** *** The warning box *)

Lemma checked_256 (w : Widgets) : 256 ∈ checked_sizes w ↔ size_checkboxes w 256 = true.
Proof.
  unfold checked_sizes. rewrite list_elem_of_filter. split; [by intros [? _]|].
  intros H256. split; [done|]. unfold ICON_SIZES. do 5 right. by left.
Qed.

(** X10. Once the directory is chosen, the warning about 256 is shown exactly
    when 256 is ticked in 8-bit mode; no other box of the run can be taken
    for it. *)
Theorem warning_exactly_in_8bit_with_256 (env : Env) (w : Widgets) (output_dir : string) :
  file_list w ≠ [] → output_dir ≠ "" →
  (("Warning",
    "The 256x256 size is only compatible with 32-bit mode. It will be ignored.",
    "warning") ∈ message_boxes (run_conversion env w output_dir)
   ↔ size_checkboxes w 256 = true ∧ bit_32 w = false).
Proof.
  intros Hfiles Hdir. rewrite run_conversion_past_guards by done.
  set (rest := if bool_decide (selected_sizes_of w = []) then _ else _).
  assert (∀ t m i, (t, m, i) ∈ message_boxes rest → t ≠ "Warning") as Hrest.
  { intros t m i. unfold rest. case_bool_decide.
    - intros [= -> _ _]%list_elem_of_singleton. done.
    - rewrite message_boxes_app. simpl.
      destruct (convert_files_ending env output_dir (radius_slider w)
                  (selected_sizes_of w) (bit_32 w) (save_separately_checkbox w)
                  (file_list w) 0)
        as [(evs & -> & Hboxes)|(evs & path & e & _ & -> & Hboxes)];
        rewrite message_boxes_app, Hboxes; simpl.
      + by intros ?%elem_of_nil.
      + intros [= -> _ _]%list_elem_of_singleton. done. }
  clearbody rest.
  rewrite message_boxes_app, elem_of_app, <- checked_256. unfold warning_events.
  destruct (bit_32 w), (decide (256 ∈ checked_sizes w)) as [H256|H256];
    rewrite ?(bool_decide_eq_true_2 _ H256), ?(bool_decide_eq_false_2 _ H256); simpl.
  - split; [|by intros [_ ?]]. intros [[]%elem_of_nil|Hin]. by apply Hrest in Hin.
  - split; [|by intros [? _]]. intros [[]%elem_of_nil|Hin]. by apply Hrest in Hin.
  - split; [done|]. intros _. left. by left.
  - split; [|by intros [? _]]. intros [[]%elem_of_nil|Hin]. by apply Hrest in Hin.
Qed.

Lemma warning_exactly_in_8bit_with_256_witness :
  file_list Sample.eight_bit_with_256 ≠ [] ∧ "out" ≠ "" ∧
  ("Warning",
   "The 256x256 size is only compatible with 32-bit mode. It will be ignored.",
   "warning") ∈ message_boxes (run_conversion Sample.env Sample.eight_bit_with_256 "out").
Proof.
  split; [discriminate|]. split; [discriminate|].
  apply (warning_exactly_in_8bit_with_256 Sample.env Sample.eight_bit_with_256 "out");
    [discriminate|discriminate|]. split; reflexivity.
Defined.

(** ** The preview and the conversion *)

(** X11. Every icon a run writes holds the very image the preview shows for
    one of the listed files with the slider where it is (the preview
    showing an image whenever Qt accepts it). *)
Theorem preview_shows_what_is_saved (env : Env) (image_qt : RasterImage → option string)
    (w : Widgets) (output_dir : string) :
  Forall (λ f, ∃ path,
            path ∈ file_list w ∧
            (image_qt (ico_image f) = None →
             update_preview env image_qt (Some path) (radius_slider w) =
               ([RadiusValueSetText (pretty (radius_slider w));
                 PreviewSetPixmap (ico_image f) 256 256],
                Some path)))
         (saved_files (run_conversion env w output_dir)).
Proof.
  eapply Forall_impl; [apply run_conversion_images|].
  intros f (path & img & Hpath & Hopen & Himage).
  exists path. split; [done|]. intros Hqt.
  unfold update_preview. rewrite Hopen. cbv zeta. rewrite <- Himage. by rewrite Hqt.
Qed.

(** X12. A file the preview cannot decode stops the conversion: if it comes
    first in the list, nothing is written and the run ends with the error
    report carrying the message the preview printed. *)
Theorem preview_error_means_conversion_error (env : Env)
    (image_qt : RasterImage → option string) (w : Widgets) (output_dir : string)
    (path : string) (rest : list string) (e : string) :
  file_list w = path :: rest → output_dir ≠ "" → selected_sizes_of w ≠ [] →
  Image_open env path = inl e →
  (update_preview env image_qt (Some path) (radius_slider w)).1 =
    [RadiusValueSetText (pretty (radius_slider w));
     PreviewPrint ("Preview Error: " +:+ e); PreviewSetText "Format Error"] ∧
  saved_files (run_conversion env w output_dir) = [] ∧
  run_conversion env w output_dir =
    warning_events w ++
    [SetStatus "Converting..."; ProcessEvents; SetMaximum (progress_maximum w); SetValue 0] ++
    error_events env path e.
Proof.
  intros Hlist Hdir Hsizes Hopen.
  assert (run_conversion env w output_dir =
            warning_events w ++
            [SetStatus "Converting..."; ProcessEvents;
             SetMaximum (progress_maximum w); SetValue 0] ++
            error_events env path e) as Hrun.
  { rewrite run_conversion_loop; [|by rewrite Hlist|done..].
    rewrite Hlist. cbn [convert_files]. unfold convert_file. by rewrite Hopen. }
  split_and!.
  - unfold update_preview. by rewrite Hopen.
  - rewrite Hrun, saved_files_app, saved_files_warning. done.
  - done.
Qed.

Lemma preview_error_means_conversion_error_witness :
  file_list Sample.batch_corrupt_first = "corrupt.png" :: ["a.png"; "b.png"] ∧
  Image_open Sample.env "corrupt.png" = inl "cannot identify image file" ∧
  (update_preview Sample.env (λ _, None) (Some "corrupt.png")
                  (radius_slider Sample.batch_corrupt_first)).1 =
    [RadiusValueSetText "0";
     PreviewPrint "Preview Error: cannot identify image file";
     PreviewSetText "Format Error"] ∧
  saved_files (run_conversion Sample.env Sample.batch_corrupt_first "out") = [].
Proof.
  split; [reflexivity|]. split; [reflexivity|].
  destruct (preview_error_means_conversion_error Sample.env (λ _, None)
              Sample.batch_corrupt_first "out" "corrupt.png" ["a.png"; "b.png"]
              "cannot identify image file") as (Hpreview & Hsaved & _);
    [reflexivity|discriminate|discriminate|reflexivity|].
  split; [exact Hpreview|exact Hsaved].
Defined.

(** ** More on rounded corners *)

Lemma zip_alpha_twice_row (row : list Pixel) (m1 m2 : list Z) :
  length row = length m1 →
  zip_with set_alpha (zip_with set_alpha row m1) m2 = zip_with set_alpha row m2.
Proof.
  revert m1 m2. induction row as [|p row IH]; intros [|a m1] m2 Hlen;
    simplify_eq/=; [done|].
  destruct m2 as [|b m2]; [done|]. simpl. f_equal. by apply IH.
Qed.

Lemma zip_alpha_twice (l : list (list Pixel)) (m1 m2 : list (list Z)) :
  Forall2 (λ row mrow, length row = length mrow) l m1 →
  zip_with (zip_with set_alpha) (zip_with (zip_with set_alpha) l m1) m2 =
  zip_with (zip_with set_alpha) l m2.
Proof.
  intros Hshape. revert m2.
  induction Hshape as [|row mrow l m1 Hrow _ IH]; intros m2; simpl; [done|].
  destruct m2 as [|mrow2 m2]; [done|]. simpl. f_equal; [|by apply IH].
  by apply zip_alpha_twice_row.
Qed.

(** X13. Rounding an image that is already rounded forgets the first radius:
    the result is the one the second radius gives on the original. *)
Theorem rounded_corners_last_radius_wins (image : RasterImage) (radius1 radius2 : Z) :
  well_formed image →
  rounded_corners (rounded_corners image radius1) radius2 = rounded_corners image radius2.
Proof.
  intros Hwf. pose proof (rounded_mask_same_shape image radius1 Hwf) as Hshape.
  unfold rounded_corners, putalpha, copy. simpl. f_equal.
  by apply zip_alpha_twice.
Qed.

Lemma rounded_corners_last_radius_wins_witness :
  well_formed Sample.tile ∧
  rounded_corners (rounded_corners Sample.tile 1) 3 = rounded_corners Sample.tile 3 ∧
  rounded_corners Sample.tile 1 ≠ rounded_corners Sample.tile 3.
Proof.
  assert (well_formed Sample.tile) as Hwf.
  { split; [reflexivity|]. repeat constructor. }
  split; [exact Hwf|]. split.
  - exact (rounded_corners_last_radius_wins Sample.tile 1 3 Hwf).
  - vm_compute. discriminate.
Defined.

Lemma draw_shape_values (covers : Z → Z → bool) (fill : Z) (m : GreyImage)
    (P : Z → Prop) :
  P fill → Forall (Forall P) (grows m) →
  Forall (Forall P) (grows (draw_shape covers fill m)).
Proof.
  intros Hfill Hm. simpl. apply Forall_lookup_2. intros y row Hy.
  apply list_lookup_imap_Some in Hy as (row' & Hrow' & ->).
  eapply Forall_lookup_1 in Hm; [|done].
  apply Forall_lookup_2. intros x v Hx.
  apply list_lookup_imap_Some in Hx as (v' & Hv' & ->).
  case_match; [done|]. by eapply Forall_lookup_1 in Hm.
Qed.

(** X14. The alpha of a rounded image is 0 or 255 at every pixel: whatever
    half-transparency the source had is gone.  (The drawing paints its fill
    value, 255, on a mask created at 0, and nothing in between.) *)
Theorem rounded_alpha_is_binary (image : RasterImage) (radius : Z) :
  well_formed image →
  Forall (Forall (λ a, a = 0 ∨ a = 255)) (alpha_channel (rounded_corners image radius)).
Proof.
  intros Hwf. rewrite rounded_corners_alpha by done.
  apply draw_shape_values; [by right|]. simpl.
  apply Forall_replicate, Forall_replicate. by left.
Qed.

Lemma rounded_alpha_is_binary_witness :
  well_formed Sample.strip ∧
  alpha_channel Sample.strip = replicate 2 (replicate 8 77) ∧
  Forall (Forall (λ a, a = 0 ∨ a = 255)) (alpha_channel (rounded_corners Sample.strip 1)).
Proof.
  split; [exact Sample_strip_well_formed|]. split; [reflexivity|].
  exact (rounded_alpha_is_binary Sample.strip 1 Sample_strip_well_formed).
Defined.
